(** * Chatty task scheduler: store, recurrence resolver and due-task scanner

    A shallow embedding of [scheduler.py] and [taskTools.py], with the
    injection endpoint of [main.py].

    Instants are UTC microseconds since the epoch, held in [Z]; a Python
    [datetime] is its wall-clock reading together with an optional UTC
    offset, and arithmetic that leaves the range of [datetime] raises as
    Python does.  The parser [icalendar] is a parameter of the development;
    the parsed event is the dictionary the program reads with [event.get].
    [dateutil.rrule] is a parameter too: the program fails before it reaches
    it. *)

From Stdlib Require Import ZArith Lia Ascii String.
From stdpp Require Import base option list strings pretty gmap.

Local Open Scope Z_scope.

(** ** Exceptions raised inside a [try] block *)

Inductive exn : Type :=
| UnboundLocalError (name : string)
| AttributeError (name : string)
| TypeError (what : string)
| OverflowError.

Inductive result (A : Type) : Type :=
| Ok (a : A)
| Raise (e : exn).
Arguments Ok {A} a.
Arguments Raise {A} e.

#[global] Instance result_ret : MRet result := fun _ a => Ok a.
#[global] Instance result_bind : MBind result := fun _ _ f m =>
  match m with
  | Ok a => f a
  | Raise e => Raise e
  end.

(** Reading a local variable: Python raises when no assignment has run on
    the path taken. *)
Definition read_local {A} (name : string) (v : option A) : result A :=
  match v with
  | Some a => Ok a
  | None => Raise (UnboundLocalError name)
  end.

(** [foldM] is a [for] loop whose body may raise. *)
Fixpoint foldM {A B} (f : B -> A -> result B) (l : list A) (b : B) : result B :=
  match l with
  | [] => Ok b
  | x :: l' => b' ← f b x; foldM f l' b'
  end.

(** ** Time *)

Module Time.

Definition US_PER_SECOND : Z := 1000000.

Definition seconds (n : Z) : Z := n * US_PER_SECOND.
Definition minutes (n : Z) : Z := seconds (60 * n).

(** [datetime]: wall-clock microseconds and [tzinfo.utcoffset], when the
    value is aware. *)
Record datetime : Type := mkDatetime {
  dt_wall : Z;
  dt_utcoffset : option Z
}.

(** An aware UTC datetime is identified with its instant. *)
Definition utc (t : Z) : datetime := mkDatetime t (Some 0).

(** 00:00:00 UTC of a proleptic Gregorian civil date, as days since the
    epoch, then as an instant. *)
Definition days_from_civil (y m d : Z) : Z :=
  let y' := if m <=? 2 then y - 1 else y in
  let era := y' / 400 in
  let yoe := y' - era * 400 in
  let mp := (m + 9) mod 12 in
  let doy := (153 * mp + 2) / 5 + d - 1 in
  let doe := yoe * 365 + yoe / 4 - yoe / 100 + doy in
  era * 146097 + doe - 719468.

Definition at_utc (y m d hh mm ss : Z) : Z :=
  seconds (days_from_civil y m d * 86400 + hh * 3600 + mm * 60 + ss).

(** [datetime.min] and [datetime.max], read as UTC. *)
Definition datetime_min : Z := at_utc 1 1 1 0 0 0.
Definition datetime_max : Z := at_utc 9999 12 31 23 59 59 + 999999.

(** The result of datetime arithmetic: [OverflowError] outside the range. *)
Definition checked (t : Z) : result Z :=
  if (datetime_min <=? t) && (t <=? datetime_max) then Ok t
  else Raise OverflowError.


(** [_make_dt_aware]: a naive value gets [tzinfo] UTC by [replace]; an
    aware one is converted by [astimezone], which subtracts the offset and
    raises when the result leaves the range. *)
Definition _make_dt_aware (dt_val : datetime) : result Z :=
  match dt_utcoffset dt_val with
  | None => Ok (dt_wall dt_val)
  | Some off => checked (dt_wall dt_val - off)
  end.

(** [t - timedelta] on an aware UTC datetime. *)
Definition sub_timedelta (t delta : Z) : result Z := checked (t - delta).

(** [t.replace(microsecond=0)] on an aware UTC datetime. *)
Definition replace_microsecond_0 (t : Z) : Z :=
  (t / US_PER_SECOND) * US_PER_SECOND.

End Time.

(** ** Strings, as Python uses them here *)

Module PyString.

(** [needle in hay] *)
Fixpoint contains (needle hay : string) : bool :=
  String.prefix needle hay ||
  match hay with
  | EmptyString => false
  | String _ hay' => contains needle hay'
  end.

Definition upper_ascii (c : ascii) : ascii :=
  let n := nat_of_ascii c in
  if ((97 <=? n) && (n <=? 122))%nat then ascii_of_nat (n - 32) else c.

(** [s.upper()], on ASCII text *)
Fixpoint upper (s : string) : string :=
  match s with
  | EmptyString => EmptyString
  | String c s' => String (upper_ascii c) (upper s')
  end.

(** Truth value of an optional string: [None] and the empty string are
    falsy. *)
Definition truthy (v : option string) : bool :=
  match v with
  | Some (String _ _) => true
  | _ => false
  end.

(** [needle] occurs somewhere inside [hay]. *)
Definition occurs_in (needle hay : string) : Prop :=
  exists pre post : string, hay = pre +:+ needle +:+ post.

End PyString.

(** ** The persisted collection, [scheduled_tasks.json] *)

Module Store.

(** A stored task: a JSON object, any key of which may be absent; a key
    that is present holds a string, as in every record [create] writes. *)
Record task : Type := mkTask {
  id : option string;
  conversation_id : option string;
  user_prompt : option string;
  schedule_vevent : option string;
  status : option string
}.

(** What a reader finds at the path: no file, an empty file, text that
    [json.loads] rejects, JSON that is not a list, or a list of tasks. *)
Inductive file : Type :=
| Absent
| Empty
| Undecodable (content : string)
| NotAList (content : string)
| TaskList (tasks : list task).

(** [_load_tasks] and [_load_tasks_for_scheduler] have the same body. *)
Definition load (f : file) : list task :=
  match f with
  | TaskList tasks => tasks
  | _ => []
  end.

(** The collection cannot be read: invalid JSON, or JSON that is not a
    list. *)
Definition unreadable (f : file) : Prop :=
  match f with
  | Undecodable _ | NotAList _ => True
  | _ => False
  end.

(** How the attempt to write the file ends: the list is written, or
    [open] or [json.dump] raises and the file is left as [left_behind]
    (untouched when [open] fails, cut short when the dump fails). *)
Inductive write_outcome : Type :=
| Written
| WriteError (left_behind : file).

(** [_save_tasks]: the error of a failed write is printed and swallowed. *)
Definition save (w : write_outcome) (tasks : list task) : file :=
  match w with
  | Written => TaskList tasks
  | WriteError left_behind => left_behind
  end.

End Store.

(** ** scheduler.py *)

Module Scheduler.
Import Time PyString Store.

Definition POLL_INTERVAL_SECONDS : Z := 10.

(** *** The parsed VEVENT *)

(** A value inside a recurrence rule: a number, a word, a datetime. *)
Inductive rvalue : Type :=
| RInt (n : Z)
| RStr (s : string)
| RDateTime (d : datetime).

(** [vRecur], a dictionary from the upper-case name of each rule part to
    the list of its values. *)
Definition vRecur : Type := list (string * list rvalue).

(** The properties of a parsed VEVENT that bear on its timing, under the
    names the parser files them: DTSTART, RRULE, and one date list for
    each RDATE and each EXDATE line. *)
Record event : Type := mkEvent {
  DTSTART : option datetime;
  RRULE : option vRecur;
  RDATE : list (list datetime);
  EXDATE : list (list datetime)
}.

(** What [event.get] hands back. *)
Inductive ical_value : Type :=
| VDDDTypes (dt : datetime)
| VRecur (parts : vRecur)
| VDDDLists (lists : list (list datetime)).

(** [event.get(key)]: the component is a dictionary keyed by upper-cased
    property names; a key that names no property of the event gives
    [None]. *)
Definition event_get (ev : event) (key : string) : option ical_value :=
  let name := upper key in
  if bool_decide (name = "DTSTART") then VDDDTypes <$> DTSTART ev
  else if bool_decide (name = "RRULE") then VRecur <$> RRULE ev
  else if bool_decide (name = "RDATE") then
    match RDATE ev with [] => None | lists => Some (VDDDLists lists) end
  else if bool_decide (name = "EXDATE") then
    match EXDATE ev with [] => None | lists => Some (VDDDLists lists) end
  else None.

(** [if value:] for what [event.get] returned: [None] and an empty
    dictionary are falsy.  The value is kept when truthy. *)
Definition if_truthy (v : option ical_value) : option ical_value :=
  match v with
  | None => None
  | Some (VRecur []) => None
  | Some x => Some x
  end.

(** [value.dt] *)
Definition dt_of (v : ical_value) : result datetime :=
  match v with
  | VDDDTypes d => Ok d
  | _ => Raise (AttributeError "dt")
  end.

(** [for x_list in value: ... x_list.dts]: the date lists of a value that
    is a list of them. *)
Definition date_lists (v : ical_value) : result (list (list datetime)) :=
  match v with
  | VDDDLists lists => Ok lists
  | VDDDTypes _ => Raise (TypeError "object is not iterable")
  | VRecur _ => Raise (AttributeError "dts")
  end.

(** *** Lines 92-100: from the rule to [dateutil] *)

(** A keyword argument for [rrule.rrule]: a list of values, or one value
    taken out of its list. *)
Inductive pvalue : Type :=
| PList (l : list rvalue)
| PScalar (v : rvalue).

Definition rrule_params : Type := list (string * pvalue).

(** [rrule_prop.to_dict()]: no class of [icalendar] values defines
    [to_dict]; the attribute lookup raises. *)
Definition to_dict (rrule_prop : ical_value) : result rrule_params :=
  Raise (AttributeError "to_dict").

Fixpoint params_get (key : string) (params : rrule_params) : option pvalue :=
  match params with
  | [] => None
  | (k, v) :: rest => if bool_decide (k = key) then Some v else params_get key rest
  end.

Fixpoint params_set (key : string) (value : pvalue) (params : rrule_params)
  : rrule_params :=
  match params with
  | [] => [(key, value)]
  | (k, v) :: rest =>
      if bool_decide (k = key) then (k, value) :: rest
      else (k, v) :: params_set key value rest
  end.

(** Lines 93-94: [rrule_params['FREQ'].upper()], which a list does not
    have. *)
Definition upper_freq (params : rrule_params) : result rrule_params :=
  match params_get "FREQ" params with
  | None => Ok params
  | Some (PScalar (RStr s)) => Ok (params_set "FREQ" (PScalar (RStr (upper s))) params)
  | Some _ => Raise (AttributeError "upper")
  end.

Definition KEEPS_LIST : list string :=
  ["BYSETPOS"; "BYMONTHDAY"; "BYYEARDAY"; "BYWEEKNO"; "BYHOUR"; "BYMINUTE";
   "BYSECOND"].

(** Lines 95-98: a one-element list holding a number is replaced by the
    number, save under BYDAY and the names of [KEEPS_LIST]. *)
Definition unwrap_single (item : string * pvalue) : string * pvalue :=
  let '(key, value) := item in
  match value with
  | PList [RInt n] =>
      if bool_decide (key = "BYDAY") then item
      else if bool_decide (upper key ∈ KEEPS_LIST) then item
      else (key, PScalar (RInt n))
  | _ => item
  end.

(** [dateutil.rrule]: the rule objects, the constructor
    [rrule.rrule(dtstart=..., **rrule_params)] and [rule.after(dt, inc)],
    each of which may raise. *)
Record dateutil : Type := mkDateutil {
  rule : Type;
  rrule_rrule : Z -> rrule_params -> result rule;
  rule_after : rule -> Z -> bool -> result (option Z)
}.

Section WithLibraries.

(** [iCalEvent.from_ical]: [None] when it raises. *)
Variable from_ical : string -> option event.
Variable du : dateutil.

(** *** calculate_next_occurrence *)

(** Lines 79-115: the candidate from DTSTART or from the rule, with the
    locals [effective_search_start_utc] and [rrule_params], which only
    the recurring branch assigns. *)
Definition first_candidate (rrule_prop : option ical_value)
           (dtstart_val_utc now_utc : Z)
  : result (option Z * option Z * option rrule_params) :=
  match if_truthy rrule_prop with
  | None =>
      let catch_up_window := minutes 5 in
      oldest ← sub_timedelta now_utc catch_up_window;
      if oldest <=? dtstart_val_utc
      then Ok (Some dtstart_val_utc, None, None)
      else Ok (None, None, None)
  | Some recur =>
      rrule_params ← to_dict recur;
      rrule_params ← upper_freq rrule_params;
      let rrule_params := unwrap_single <$> rrule_params in
      rule ← rrule_rrule du dtstart_val_utc rrule_params;
      let grace_period_for_just_missed := seconds (POLL_INTERVAL_SECONDS * 2) in
      effective_search_start_utc ←
        sub_timedelta now_utc grace_period_for_just_missed;
      first_after_effective_start ←
        rule_after du rule effective_search_start_utc true;
      Ok (first_after_effective_start, Some effective_search_start_utc,
          Some rrule_params)
  end.

(** Lines 124-132: the RDATE loops. *)
Definition rdate_step (effective_search_start_utc : option Z)
           (cand : option Z) (rdate_val_obj : datetime) : result (option Z) :=
  rdate_val ← _make_dt_aware rdate_val_obj;
  ess ← read_local "effective_search_start_utc" effective_search_start_utc;
  if ess <=? rdate_val then
    match cand with
    | None => Ok (Some rdate_val)
    | Some c => if rdate_val <? c then Ok (Some rdate_val) else Ok cand
    end
  else Ok cand.

Definition rdate_pass (effective_search_start_utc : option Z)
           (rdate_prop : list (list datetime)) (cand : option Z)
  : result (option Z) :=
  foldM (fun c rdate_list =>
           foldM (rdate_step effective_search_start_utc) rdate_list c)
        rdate_prop cand.

(** Lines 138-146: the first EXDATE equal to the candidate once both have
    their microseconds dropped; the loops leave it in [exdate_val]. *)
Fixpoint find_in_list (cand : Z) (exdate_list : list datetime)
  : result (option Z) :=
  match exdate_list with
  | [] => Ok None
  | exdate_val_obj :: rest =>
      exdate_val ← _make_dt_aware exdate_val_obj;
      if replace_microsecond_0 cand =? replace_microsecond_0 exdate_val
      then Ok (Some exdate_val)
      else find_in_list cand rest
  end.

Fixpoint find_exdate (cand : Z) (exdate_prop : list (list datetime))
  : result (option Z) :=
  match exdate_prop with
  | [] => Ok None
  | exdate_list :: rest =>
      found ← find_in_list cand exdate_list;
      match found with
      | Some exdate_val => Ok (Some exdate_val)
      | None => find_exdate cand rest
      end
  end.

(** Lines 157-164: RDATEs after the exclusion and before the new
    candidate. *)
Definition rdate_recheck_step (exdate_val : Z) (cand : Z)
           (rdate_val_obj_inner : datetime) : result Z :=
  rdate_val_inner ← _make_dt_aware rdate_val_obj_inner;
  if (exdate_val <? rdate_val_inner) && (rdate_val_inner <? cand)
  then Ok rdate_val_inner else Ok cand.

Definition rdate_recheck (exdate_val : Z) (rdate_prop : list (list datetime))
           (cand : Z) : result Z :=
  foldM (fun c rdate_list_inner =>
           foldM (rdate_recheck_step exdate_val) rdate_list_inner c)
        rdate_prop cand.

(** Lines 134-167. *)
Definition exdate_pass (ev : event) (dtstart_val_utc : Z)
           (rrule_prop rdate_prop : option ical_value)
           (rrule_params : option rrule_params) (cand : option Z)
  : result (option Z) :=
  match cand with
  | None => Ok None
  | Some c =>
      let exdate_prop := event_get ev "exdates" in
      match if_truthy exdate_prop with
      | None => Ok (Some c)
      | Some exdates =>
          exdate_lists ← date_lists exdates;
          found ← find_exdate c exdate_lists;
          match found with
          | None => Ok (Some c)
          | Some exdate_val =>
              match if_truthy rrule_prop with
              | Some _ =>
                  params ← read_local "rrule_params" rrule_params;
                  rule ← rrule_rrule du dtstart_val_utc params;
                  next_after_exclusion ← rule_after du rule c false;
                  match next_after_exclusion, if_truthy rdate_prop with
                  | Some n, Some rdates =>
                      rdate_lists ← date_lists rdates;
                      n' ← rdate_recheck exdate_val rdate_lists n;
                      Ok (Some n')
                  | _, _ => Ok next_after_exclusion
                  end
              | None => Ok None
              end
          end
      end
  end.

(** The body of the [try] block, from the parsed event on. *)
Definition next_occurrence_of_event (ev : event) (now_utc : Z)
  : result (option Z) :=
  match event_get ev "dtstart" with
  | None => Ok None
  | Some dtstart_obj =>
      original_dtstart_dt ← dt_of dtstart_obj;
      dtstart_val_utc ← _make_dt_aware original_dtstart_dt;
      let rrule_prop := event_get ev "rrule" in
      '(next_occ_candidate, effective_search_start_utc, rrule_params) ←
        first_candidate rrule_prop dtstart_val_utc now_utc;
      let rdate_prop := event_get ev "rdates" in
      current ←
        match if_truthy rdate_prop with
        | Some rdates =>
            rdate_lists ← date_lists rdates;
            rdate_pass effective_search_start_utc rdate_lists next_occ_candidate
        | None => Ok next_occ_candidate
        end;
      exdate_pass ev dtstart_val_utc rrule_prop rdate_prop rrule_params current
  end.

(** The whole function: a parse failure and every exception of the body
    end in [None].  The closing [_make_dt_aware] of line 172 is handed a
    value whose [tzinfo] is already UTC, which [astimezone] returns as it
    is. *)
Definition calculate_next_occurrence (task_id_for_debug vevent_str : string)
           (now_utc : Z) : option Z :=
  match from_ical vevent_str with
  | None => None
  | Some ev =>
      match next_occurrence_of_event ev now_utc with
      | Ok r => r
      | Raise _ => None
      end
  end.

(** *** process_scheduled_tasks *)

(** What the loop body concludes about one task; each case is one of
    the branches that logs and moves on. *)
Inductive verdict : Type :=
| AlreadyFired
| NoVevent
| NoOccurrence
| NotDueYet (next_occurrence_utc : Z)
| DueMissingFields (next_occurrence_utc : Z)
| DueInjected (next_occurrence_utc : Z) (ok : bool).

Definition task_id_of (task_index : nat) (t : task) : string :=
  default ("unknown_id_at_index_" +:+ pretty task_index) (id t).

Definition is_one_off (t : task) : bool :=
  let text := upper (default EmptyString (schedule_vevent t)) in
  negb (contains "RRULE" text) && negb (contains "RDATE" text).

Definition is_due (next_occurrence_utc now_utc : Z) : bool :=
  next_occurrence_utc <=? now_utc + seconds POLL_INTERVAL_SECONDS / 2.

(** [inject_prompt_via_api] is an HTTP call; its outcome for the task
    at a given index of the cycle is supplied from outside. *)
Definition delivery : Type := nat -> string -> string -> string -> bool.

Definition evaluate_task (FIRED_ONCE_TASK_IDS : gset string)
           (inject_prompt_via_api : delivery) (now_utc : Z)
           (task_index : nat) (t : task) : verdict :=
  let task_id := task_id_of task_index t in
  if is_one_off t && bool_decide (task_id ∈ FIRED_ONCE_TASK_IDS)
  then AlreadyFired
  else
    match schedule_vevent t with
    | Some (String _ _ as vevent_str) =>
        match calculate_next_occurrence task_id vevent_str now_utc with
        | Some next_occurrence_utc =>
            if is_due next_occurrence_utc now_utc then
              match conversation_id t, user_prompt t with
              | Some (String _ _ as conv), Some (String _ _ as prompt) =>
                  DueInjected next_occurrence_utc
                    (inject_prompt_via_api task_index conv prompt task_id)
              | _, _ => DueMissingFields next_occurrence_utc
              end
            else NotDueYet next_occurrence_utc
        | None => NoOccurrence
        end
    | _ => NoVevent
    end.

(** The registry after one task: only a successful delivery of a
    one-off task adds to it. *)
Definition registry_after (FIRED_ONCE_TASK_IDS : gset string)
           (task_index : nat) (t : task) (v : verdict) : gset string :=
  match v with
  | DueInjected _ true =>
      if is_one_off t
      then {[ task_id_of task_index t ]} ∪ FIRED_ONCE_TASK_IDS
      else FIRED_ONCE_TASK_IDS
  | _ => FIRED_ONCE_TASK_IDS
  end.

(** One entry of the cycle's log: the task, its index and the verdict. *)
Record entry : Type := mkEntry {
  e_index : nat;
  e_task : task;
  e_verdict : verdict
}.

Fixpoint scan_from (task_index : nat) (tasks : list task)
         (inject_prompt_via_api : delivery) (now_utc : Z)
         (FIRED_ONCE_TASK_IDS : gset string) : gset string * list entry :=
  match tasks with
  | [] => (FIRED_ONCE_TASK_IDS, [])
  | t :: rest =>
      let v := evaluate_task FIRED_ONCE_TASK_IDS inject_prompt_via_api
                             now_utc task_index t in
      let '(fired, log) :=
        scan_from (S task_index) rest inject_prompt_via_api now_utc
                  (registry_after FIRED_ONCE_TASK_IDS task_index t v) in
      (fired, mkEntry task_index t v :: log)
  end.

Definition _load_tasks_for_scheduler (f : file) : list task := load f.

(** One poll cycle: load, then evaluate every task in order.  An empty
    collection returns at once. *)
Definition process_scheduled_tasks (f : file)
           (inject_prompt_via_api : delivery) (now_utc : Z)
           (FIRED_ONCE_TASK_IDS : gset string) : gset string * list entry :=
  let tasks := _load_tasks_for_scheduler f in
  match tasks with
  | [] => (FIRED_ONCE_TASK_IDS, [])
  | _ => scan_from 0 tasks inject_prompt_via_api now_utc FIRED_ONCE_TASK_IDS
  end.

(** The world as one cycle meets it: the file, the outcome of each
    delivery call and the clock. *)
Record tick : Type := mkTick {
  tick_file : file;
  tick_delivery : delivery;
  tick_now : Z
}.

(** The [while True] loop over a finite run of ticks; the registry
    starts empty and lives as long as the process. *)
Fixpoint poll_loop (ticks : list tick) (FIRED_ONCE_TASK_IDS : gset string)
  : gset string * list (list entry) :=
  match ticks with
  | [] => (FIRED_ONCE_TASK_IDS, [])
  | tk :: rest =>
      let '(fired, log) :=
        process_scheduled_tasks (tick_file tk) (tick_delivery tk)
                                (tick_now tk) FIRED_ONCE_TASK_IDS in
      let '(fired', logs) := poll_loop rest fired in
      (fired', log :: logs)
  end.

Definition main (ticks : list tick) : gset string * list (list entry) :=
  poll_loop ticks ∅.

End WithLibraries.

(** Reading a verdict: the task was found due; a delivery call was made;
    the call succeeded. *)
Definition classified_due (v : verdict) : bool :=
  match v with
  | DueMissingFields _ | DueInjected _ _ => true
  | _ => false
  end.

Definition delivery_attempted (v : verdict) : bool :=
  match v with
  | DueInjected _ _ => true
  | _ => false
  end.

Definition delivered (v : verdict) : bool :=
  match v with
  | DueInjected _ ok => ok
  | _ => false
  end.

Definition entry_id (e : entry) : string := task_id_of (e_index e) (e_task e).

Definition one_off_entry (e : entry) : Prop := is_one_off (e_task e) = true.

(** The registry discipline of a stretch of log that starts with registry
    [before] and ends with registry [after]. *)
Record registry_discipline (before : gset string) (log : list entry)
       (after : gset string) : Prop := mkDiscipline {
  rd_grows : before ⊆ after;
  rd_skips : forall e, e ∈ log -> one_off_entry e -> entry_id e ∈ before ->
                       e_verdict e = AlreadyFired;
  rd_records : forall e, e ∈ log -> one_off_entry e ->
                         delivered (e_verdict e) = true -> entry_id e ∈ after;
  rd_once : forall (k1 k2 : nat) e1 e2,
      (k1 < k2)%nat -> log !! k1 = Some e1 -> log !! k2 = Some e2 ->
      one_off_entry e1 -> delivered (e_verdict e1) = true ->
      one_off_entry e2 -> entry_id e1 = entry_id e2 ->
      e_verdict e2 = AlreadyFired
}.

End Scheduler.

(** ** taskTools.py *)

Module TaskTools.
Import PyString Store.

Definition _load_tasks (f : file) : list task := load f.
Definition _save_tasks (w : write_outcome) (tasks : list task) : file :=
  save w tasks.

(** The schedule argument as the caller passes it: Python does not
    enforce the annotation, so it may be a string or something else. *)
Inductive pyval : Type :=
| PyStr (s : string)
| PyNone
| PyOther (is_truthy : bool).

Definition pyval_truthy (v : pyval) : bool :=
  match v with
  | PyStr (String _ _) => true
  | PyStr EmptyString => false
  | PyNone => false
  | PyOther b => b
  end.

(** The string a value is, when it is one. *)
Definition str_of (v : pyval) : option string :=
  match v with
  | PyStr s => Some s
  | _ => None
  end.

Definition _is_valid_vevent_basic (vevent_str : pyval) : bool :=
  match vevent_str with
  | PyStr s =>
      contains "BEGIN:VEVENT" s && contains "END:VEVENT" s && contains "DTSTART" s
  | _ => false
  end.

(** The dictionary a tool returns. *)
Inductive response : Type :=
| Error (message : string)
| Created (task_id : string) (new_task : task)
| Listed (tasks : list task)
| Deleted.

Definition is_error (r : response) : bool :=
  match r with Error _ => true | _ => false end.

(** [create_scheduled_task]; [new_task_id] is the value [uuid.uuid4()]
    yields and [w] is how the write ends.  The result is the response and
    the file afterwards. *)
Definition create_scheduled_task (new_task_id : string) (w : write_outcome)
           (conversation_id user_prompt : string) (schedule_vevent : pyval)
           (f : file) : response * file :=
  if negb (truthy (Some conversation_id) && truthy (Some user_prompt)
           && pyval_truthy schedule_vevent)
  then (Error "Missing one or more required fields: conversation_id, user_prompt, or schedule_vevent.", f)
  else if negb (_is_valid_vevent_basic schedule_vevent)
  then (Error "Invalid schedule_vevent format. It must be a string containing BEGIN:VEVENT, END:VEVENT, and DTSTART.", f)
  else
    let tasks := _load_tasks f in
    let new_task :=
      mkTask (Some new_task_id) (Some conversation_id) (Some user_prompt)
             (str_of schedule_vevent) (Some "pending") in
    (Created new_task_id new_task, _save_tasks w (tasks ++ [new_task])).

(** [list_scheduled_tasks]; the filter applies when [conversation_id] is
    given and not empty. *)
Definition list_scheduled_tasks (conversation_id : option string) (f : file)
  : response * file :=
  let tasks := _load_tasks f in
  match conversation_id with
  | Some (String _ _ as c) =>
      (Listed (filter (fun t => Store.conversation_id t = Some c) tasks), f)
  | _ => (Listed tasks, f)
  end.

(** [delete_scheduled_task]; [w] is how the write ends. *)
Definition delete_scheduled_task (w : write_outcome) (task_id : string)
           (f : file) : response * file :=
  match task_id with
  | EmptyString => (Error "Task ID cannot be empty.", f)
  | _ =>
      let tasks := _load_tasks f in
      let initial_task_count := length tasks in
      let tasks_after_deletion := filter (fun t => id t ≠ Some task_id) tasks in
      if (length tasks_after_deletion =? initial_task_count)%nat
      then (Error ("Task ID '" +:+ task_id +:+ "' not found."), f)
      else (Deleted, _save_tasks w tasks_after_deletion)
  end.

(** An operation failed and left the file as it was. *)
Definition fails_leaving_store (out : response * file) (f : file) : Prop :=
  is_error out.1 = true /\ out.2 = f.

End TaskTools.

(** ** scheduler.py: the delivery call *)

Module Delivery.
Import Scheduler.

(** What [requests.post] comes back with: a response carrying a status code
    and a body that is JSON or not, or a [RequestException]: connection
    failure, timeout. *)
Inductive http_outcome : Type :=
| Responded (status_code : Z) (body_is_json : bool)
| RequestException.

Record payload : Type := mkPayload {
  p_conversation_id : string;
  p_user_prompt : string;
  p_task_id : string
}.

(** On status 200 the success message evaluates [response.json()], which
    raises a [RequestException] on a body that is not JSON; the handler
    turns it into [False]. *)
Definition inject_prompt_via_api (post : payload -> http_outcome)
           (conversation_id user_prompt task_id : string) : bool :=
  match post (mkPayload conversation_id user_prompt task_id) with
  | Responded status_code body_is_json =>
      if status_code =? 200 then body_is_json else false
  | RequestException => false
  end.

(** The scanner's delivery when every call of a cycle goes through
    [inject_prompt_via_api] over the same transport. *)
Definition delivery_over (post : payload -> http_outcome) : delivery :=
  fun _ conversation_id user_prompt task_id =>
    inject_prompt_via_api post conversation_id user_prompt task_id.

End Delivery.

(** ** main.py: the injection endpoint *)

Module MainApp.
Import Delivery.

Section WithQueue.

(** [LiveRequestQueue] and its [send_content]: the queue afterwards, or
    [None] when the call raises. *)
Variable queue : Type.
Variable send_content : queue -> string -> option queue.

(** The result and [ACTIVE_LIVE_REQUEST_QUEUES] afterwards. *)
Definition inject_prompt_into_session (session_id user_prompt : string)
           (ACTIVE_LIVE_REQUEST_QUEUES : gmap string queue)
  : bool * gmap string queue :=
  match ACTIVE_LIVE_REQUEST_QUEUES !! session_id with
  | Some q =>
      match send_content q user_prompt with
      | Some q' => (true, <[session_id := q']> ACTIVE_LIVE_REQUEST_QUEUES)
      | None => (false, ACTIVE_LIVE_REQUEST_QUEUES)
      end
  | None => (false, ACTIVE_LIVE_REQUEST_QUEUES)
  end.

(** [api_inject_task_prompt]: the status code of the answer, 404 standing
    for the [HTTPException] raised. *)
Definition api_inject_task_prompt (request_data : payload)
           (ACTIVE_LIVE_REQUEST_QUEUES : gmap string queue)
  : Z * gmap string queue :=
  let '(success, queues) :=
    inject_prompt_into_session (p_conversation_id request_data)
                               (p_user_prompt request_data)
                               ACTIVE_LIVE_REQUEST_QUEUES in
  if success then (200, queues) else (404, queues).

(** The scheduler's transport when the request reaches the application in
    state [queues] and the answer, a JSON body either way, comes back. *)
Definition post_to_app (queues : gmap string queue) : payload -> http_outcome :=
  fun request_data =>
    Responded (api_inject_task_prompt request_data queues).1 true.

End WithQueue.

End MainApp.

(** ** Notions used to state properties *)

Module Notions.
Import Time Scheduler.

(** A schedule that is one-off in the sense of its calendar content: no
    recurrence rule and no additional instants. *)
Definition one_off_event (ev : event) : Prop :=
  RRULE ev = None /\ concat (RDATE ev) = [].

(** Every id of [after] was in [before] or is the id of a one-off entry of
    [log] that was delivered. *)
Definition registry_justified (before : gset string) (log : list entry)
           (after : gset string) : Prop :=
  forall x, x ∈ after ->
            x ∈ before \/
            exists e, e ∈ log /\ entry_id e = x /\ one_off_entry e /\
                      delivered (e_verdict e) = true.

End Notions.

(** ** Worked examples *)

Module Examples.
Import Time Store Scheduler Delivery MainApp.

(** An instance for the [dateutil] parameter: a constructor that rejects
    its keyword arguments. *)
Definition rejecting_dateutil : dateutil :=
  mkDateutil unit
             (fun _ _ => Raise (TypeError "unexpected keyword argument"))
             (fun _ _ _ => Ok None).

(** A parser that reads every text as the given event. *)
Definition reads_as (ev : event) : string -> option event := fun _ => Some ev.

(** The rule FREQ=DAILY. *)
Definition daily : vRecur := [("FREQ", [RStr "DAILY"])].

(** DTSTART:20240101T090000Z with RRULE:FREQ=DAILY. *)
Definition daily_from_2024_01_01 : event :=
  mkEvent (Some (utc (at_utc 2024 1 1 9 0 0))) (Some daily) [] [].

(** The same with EXDATE:20240103T090000Z. *)
Definition daily_one_day_excluded : event :=
  mkEvent (Some (utc (at_utc 2024 1 1 9 0 0))) (Some daily) []
          [[utc (at_utc 2024 1 3 9 0 0)]].

(** DTSTART:20240101T090000Z alone. *)
Definition one_off_plain : event :=
  mkEvent (Some (utc (at_utc 2024 1 1 9 0 0))) None [] [].

(** DTSTART:20240101T090000Z with RDATE:20240101T085900Z. *)
Definition one_off_with_rdate : event :=
  mkEvent (Some (utc (at_utc 2024 1 1 9 0 0))) None
          [[utc (at_utc 2024 1 1 8 59 0)]] [].



(** The line feed that ends a content line. *)
Definition LF : string := String (ascii_of_nat 10) EmptyString.

(** A minimal well-formed schedule text: three content lines. *)
Definition plain_vevent : string :=
  Eval cbv in
    "BEGIN:VEVENT" +:+ LF +:+ "DTSTART:20240101T090000Z" +:+ LF +:+ "END:VEVENT".

Definition plain_task (task_id : string) : task :=
  mkTask (Some task_id) (Some "conv-1") (Some "say hello")
         (Some plain_vevent) (Some "pending").

(** A one-off schedule whose summary mentions a recurrence rule. *)
Definition summary_vevent : string :=
  Eval cbv in
    "BEGIN:VEVENT" +:+ LF +:+ "DTSTART:20240101T090000Z" +:+ LF +:+
    "SUMMARY:rrule notes" +:+ LF +:+ "END:VEVENT".

Definition summary_task : task :=
  mkTask (Some "id-7") (Some "conv-1") (Some "say hello")
         (Some summary_vevent) (Some "pending").

(** The text of the daily event. *)
Definition daily_vevent : string :=
  Eval cbv in
    "BEGIN:VEVENT" +:+ LF +:+ "DTSTART:20240101T090000Z" +:+ LF +:+
    "RRULE:FREQ=DAILY" +:+ LF +:+ "END:VEVENT".

Definition daily_task : task :=
  mkTask (Some "id-d") (Some "conv-1") (Some "good morning")
         (Some daily_vevent) (Some "pending").

(** A record without [conversation_id]. *)
Definition task_without_conversation : task :=
  mkTask (Some "id-9") None (Some "say hello") (Some plain_vevent)
         (Some "pending").

Definition always_delivered : delivery := fun _ _ _ _ => true.

(** Two poll cycles, ten seconds apart, over a store holding one one-off
    task due at the first. *)
Definition two_ticks : list tick :=
  [mkTick (TaskList [plain_task "id-1"]) always_delivered (at_utc 2024 1 1 9 0 0);
   mkTick (TaskList [plain_task "id-1"]) always_delivered (at_utc 2024 1 1 9 0 10)].

(** The same two cycles over the task whose summary mentions a rule. *)
Definition two_ticks_summary : list tick :=
  [mkTick (TaskList [summary_task]) always_delivered (at_utc 2024 1 1 9 0 0);
   mkTick (TaskList [summary_task]) always_delivered (at_utc 2024 1 1 9 0 10)].

(** A store with a duplicated id. *)
Definition store_with_duplicate : file :=
  TaskList [plain_task "id-1"; plain_task "id-2"; plain_task "id-1"].

(** A file that is not JSON. *)
Definition broken_store : file := Undecodable "{".

(** A queue as the list of prompts sent to it; sending never fails. *)
Definition list_send (q : list string) (prompt : string) : option (list string) :=
  Some (q ++ [prompt]).

(** One connected conversation. *)
Definition one_session : gmap string (list string) := {[ "conv-1" := [] ]}.

End Examples.

(** * Properties *)

(** ** The resolver *)

Section ResolverFacts.
Import Time Store Scheduler Notions Examples.

Variable from_ical : string -> option event.
Variable du : dateutil.

(** What the four [event.get] calls of the resolver find. *)
Lemma event_get_dtstart (ev : event) :
  event_get ev "dtstart" = VDDDTypes <$> DTSTART ev.
Proof. reflexivity. Qed.

Lemma event_get_rrule (ev : event) :
  event_get ev "rrule" = VRecur <$> RRULE ev.
Proof. reflexivity. Qed.

(** The keys [rdates] and [exdates] name no property: the parser files the
    additional and the excluded instants under RDATE and EXDATE. *)
Lemma event_get_rdates (ev : event) : event_get ev "rdates" = None.
Proof. reflexivity. Qed.

Lemma event_get_exdates (ev : event) : event_get ev "exdates" = None.
Proof. reflexivity. Qed.

(** The body of the resolver with the dead branches gone. *)
Lemma next_occurrence_of_event_reduced (ev : event) (now : Z) :
  next_occurrence_of_event du ev now =
    match DTSTART ev with
    | None => Ok None
    | Some original =>
        dtstart_val_utc ← _make_dt_aware original;
        locals ← first_candidate du (VRecur <$> RRULE ev) dtstart_val_utc now;
        Ok locals.1.1
    end.
Proof.
  unfold next_occurrence_of_event.
  rewrite event_get_dtstart, event_get_rrule, event_get_rdates.
  destruct (DTSTART ev) as [original|]; [|done]. simpl.
  destruct (_make_dt_aware original) as [s|e]; [|done]. simpl.
  destruct (first_candidate du (VRecur <$> RRULE ev) s now)
    as [[[cand ess] params]|e]; [|done].
  simpl. unfold exdate_pass. rewrite event_get_exdates.
  by destruct cand.
Qed.

Lemma first_candidate_one_off (s now : Z) :
  first_candidate du None s now =
    (oldest ← sub_timedelta now (minutes 5);
     Ok (if oldest <=? s then Some s else None, None, None)).
Proof.
  unfold first_candidate. simpl.
  destruct (sub_timedelta now (minutes 5)) as [oldest|e]; [|done]. simpl.
  by destruct (oldest <=? s).
Qed.

Lemma first_candidate_recurring (p : vRecur) (s now : Z) :
  p <> [] ->
  first_candidate du (Some (VRecur p)) s now = Raise (AttributeError "to_dict").
Proof. intros Hp. destruct p; done. Qed.

Lemma checked_Ok (t s : Z) :
  checked t = Ok s <-> s = t /\ datetime_min <= t <= datetime_max.
Proof.
  unfold checked.
  destruct (datetime_min <=? t) eqn:Hlo; destruct (t <=? datetime_max) eqn:Hhi;
    simpl; try apply Z.leb_le in Hlo; try apply Z.leb_le in Hhi;
    try apply Z.leb_gt in Hlo; try apply Z.leb_gt in Hhi.
  - split; [intros [= <-]; lia|intros [-> _]; done].
  - split; [discriminate|lia].
  - split; [discriminate|lia].
  - split; [discriminate|lia].
Qed.


(** A schedule without a rule: the start instant, if it is no older than
    five minutes. *)
Lemma calculate_one_off (task_id vevent : string) (ev : event) (S : datetime)
      (now s : Z) :
  from_ical vevent = Some ev ->
  DTSTART ev = Some S ->
  RRULE ev = None ->
  _make_dt_aware S = Ok s ->
  datetime_min + minutes 5 <= now <= datetime_max ->
  calculate_next_occurrence from_ical du task_id vevent now
  = if now - minutes 5 <=? s then Some s else None.
Proof.
  intros Hparse HS Hp Hs Hnow. unfold calculate_next_occurrence.
  rewrite Hparse, next_occurrence_of_event_reduced, HS, Hs, Hp. simpl.
  rewrite first_candidate_one_off.
  assert (Hsub : sub_timedelta now (minutes 5) = Ok (now - minutes 5)).
  { apply checked_Ok. assert (0 <= minutes 5) by (vm_compute; discriminate). lia. }
  rewrite Hsub. simpl. reflexivity.
Qed.


(** A schedule with a rule: the resolver fails at [to_dict], or earlier at
    the start instant, and answers [None]. *)
Lemma calculate_recurring (task_id vevent : string) (ev : event) (p : vRecur)
      (now : Z) :
  from_ical vevent = Some ev ->
  RRULE ev = Some p ->
  p <> [] ->
  calculate_next_occurrence from_ical du task_id vevent now = None.
Proof.
  intros Hparse Hp Hne. unfold calculate_next_occurrence.
  rewrite Hparse, next_occurrence_of_event_reduced, Hp.
  destruct (DTSTART ev) as [original|]; [|done].
  destruct (_make_dt_aware original) as [s|e]; [|done]. simpl.
  by rewrite first_candidate_recurring.
Qed.


End ResolverFacts.

(** C1, where the code departs from it: for the daily rule starting
    2024-01-01T09:00:00Z the resolver raises at [rrule_prop.to_dict()],
    whatever [dateutil] would do, and answers [None] at
    2024-01-03T09:00:00Z, at 09:00:05 and at 08:00:00 of that day, where
    the claim has 2024-01-03T09:00:00Z. *)
Theorem daily_rule_resolves_to_none (du : Scheduler.dateutil) :
  let ev := Examples.daily_from_2024_01_01 in
  (forall now, Scheduler.next_occurrence_of_event du ev now
               = Raise (AttributeError "to_dict")) /\
  (forall now,
      In now [Time.at_utc 2024 1 3 9 0 0; Time.at_utc 2024 1 3 9 0 5;
              Time.at_utc 2024 1 3 8 0 0] ->
      Scheduler.calculate_next_occurrence (Examples.reads_as ev) du "t" "v" now
      = None).
Proof.
  intros ev. split.
  - intros now. rewrite next_occurrence_of_event_reduced. reflexivity.
  - intros now _.
    by apply (calculate_recurring (Examples.reads_as ev) du "t" "v" ev
                Examples.daily).
Qed.


(** C3, where the code departs from it: for the daily rule with the
    occurrence of 2024-01-03 excluded, asked at 2024-01-03T09:00:00Z, the
    resolver answers [None], where the claim has the following day's
    occurrence.  It raises at [to_dict] before any exclusion is looked at,
    and [event.get('exdates')] finds nothing under that key. *)
Theorem excluded_day_resolves_to_none (du : Scheduler.dateutil) :
  let ev := Examples.daily_one_day_excluded in
  let D := Time.at_utc 2024 1 3 9 0 0 in
  Time.utc D ∈ concat (Scheduler.EXDATE ev) /\
  Scheduler.event_get ev "exdates" = None /\
  Scheduler.calculate_next_occurrence (Examples.reads_as ev) du "t" "v" D = None.
Proof.
  intros ev D. split; [by left|]. split; [reflexivity|].
  by apply (calculate_recurring (Examples.reads_as ev) du "t" "v" ev Examples.daily).
Qed.

(** C4, where the code departs from it: a one-off event due now with an
    additional instant inside the catch-up window and earlier than the
    start.  [event.get('rdates')] finds nothing under that key, the loop over
    additional instants never runs, and the resolver answers the start
    instant, where the claim has the additional instant. *)
Theorem one_off_additional_instant_is_ignored (du : Scheduler.dateutil) :
  let ev := Examples.one_off_with_rdate in
  let now := Time.at_utc 2024 1 1 9 0 0 in
  let A := Time.at_utc 2024 1 1 8 59 0 in
  Time.utc A ∈ concat (Scheduler.RDATE ev) /\
  (now - Time.minutes 5 <= A /\ A < now) /\
  Scheduler.event_get ev "rdates" = None /\
  Scheduler.calculate_next_occurrence (Examples.reads_as ev) du "t" "v" now
  = Some now.
Proof.
  intros ev now A. split; [by left|].
  split; [vm_compute; split; congruence|]. split; [reflexivity|].
  assert (Hrange : Time.datetime_min + Time.minutes 5 <= now <= Time.datetime_max)
    by (vm_compute; split; discriminate).
  by rewrite (calculate_one_off (Examples.reads_as ev) du "t" "v" ev
                (Time.utc now) now now eq_refl eq_refl eq_refl eq_refl Hrange).
Qed.

(** ** The scanner *)

Section ScannerFacts.
Import Time PyString Store Scheduler.

Variable from_ical : string -> option event.
Variable du : dateutil.

Lemma half_poll_interval : seconds POLL_INTERVAL_SECONDS / 2 = seconds 5.
Proof. reflexivity. Qed.

Lemma is_due_spec next now : is_due next now = true <-> next <= now + seconds 5.
Proof. unfold is_due. rewrite half_poll_interval. apply Z.leb_le. Qed.

Lemma truthy_Some_inv (v : option string) :
  truthy v = true -> exists c s, v = Some (String c s).
Proof. destruct v as [[|c s]|]; try discriminate. eauto. Qed.

(** The verdict on a task that gets as far as the due test. *)
Lemma evaluate_task_resolved fired deliver now i (t : task) vevent next :
  is_one_off t && bool_decide (task_id_of i t ∈ fired) = false ->
  schedule_vevent t = Some vevent ->
  vevent <> EmptyString ->
  calculate_next_occurrence from_ical du (task_id_of i t) vevent now = Some next ->
  evaluate_task from_ical du fired deliver now i t =
    if is_due next now then
      if truthy (conversation_id t) && truthy (user_prompt t)
      then DueInjected next
             (deliver i (default EmptyString (conversation_id t))
                      (default EmptyString (user_prompt t)) (task_id_of i t))
      else DueMissingFields next
    else NotDueYet next.
Proof.
  intros Hreach Hv Hne Hcalc. unfold evaluate_task.
  rewrite Hreach, Hv. destruct vevent as [|c vs]; [done|].
  rewrite Hcalc. destruct (is_due next now); [|done].
  destruct (conversation_id t) as [[|? ?]|]; simpl; try done;
    destruct (user_prompt t) as [[|? ?]|]; simpl; done.
Qed.


(** A task that lacks a delivery field never gets a delivery call, whatever
    the registry holds. *)
Lemma missing_fields_no_delivery fired deliver now i (t : task) :
  truthy (conversation_id t) = false \/ truthy (user_prompt t) = false ->
  delivery_attempted (evaluate_task from_ical du fired deliver now i t) = false.
Proof.
  intros Hmiss. unfold evaluate_task.
  destruct (is_one_off t && _); [done|].
  destruct (schedule_vevent t) as [[|c vs]|]; try done.
  destruct (calculate_next_occurrence _ _ _ _ _) as [next|]; [|done].
  destruct (is_due next now); [|done].
  destruct (conversation_id t) as [[|? ?]|]; simpl in *; try done;
    destruct (user_prompt t) as [[|? ?]|]; simpl in *; try done.
  destruct Hmiss; discriminate.
Qed.

Lemma registry_after_no_delivery fired i (t : task) v :
  delivered v = false -> registry_after fired i t v = fired.
Proof. destruct v as [| | | | |n [|]]; simpl; done. Qed.

(** Every log entry carries the verdict of [evaluate_task] under the
    registry current at that point. *)
Lemma scan_from_entries tasks :
  forall i deliver now fired e,
    e ∈ (scan_from from_ical du i tasks deliver now fired).2 ->
    exists fired',
      e_verdict e = evaluate_task from_ical du fired' deliver now (e_index e) (e_task e).
Proof.
  induction tasks as [|t rest IH]; intros i deliver now fired e; simpl.
  { intros H. by apply elem_of_nil in H. }
  destruct (scan_from _ _ _ _ _ _ _) as [fired1 log] eqn:Hscan. simpl.
  intros [->|Hin]%elem_of_cons.
  - by exists fired.
  - eapply (IH (S i) deliver now). by erewrite Hscan.
Qed.

(** C9: a task found due whose record lacks [conversation_id] or
    [user_prompt] is skipped: no delivery call is made for it, and the
    registry is left as it was, also when the task is one-off.  No entry of
    a cycle's log for such a record is a delivery. *)
Theorem due_task_missing_fields_is_skipped
        fired deliver now i (t : task) :
  truthy (conversation_id t) = false \/ truthy (user_prompt t) = false ->
  let v := evaluate_task from_ical du fired deliver now i t in
  (classified_due v = true ->
   (exists next, v = DueMissingFields next) /\
   delivery_attempted v = false /\
   registry_after fired i t v = fired /\
   (task_id_of i t ∉ fired -> task_id_of i t ∉ registry_after fired i t v)) /\
  (forall f e,
      e ∈ (process_scheduled_tasks from_ical du f deliver now fired).2 ->
      truthy (conversation_id (e_task e)) = false \/
      truthy (user_prompt (e_task e)) = false ->
      delivery_attempted (e_verdict e) = false).
Proof.
  intros Hmiss v. split.
  - intros Hdue.
    pose proof (missing_fields_no_delivery fired deliver now i t Hmiss) as Hno.
    fold v in Hno.
    assert (Hreg : registry_after fired i t v = fired).
    { apply registry_after_no_delivery.
      destruct v as [| | | | |n ok]; simpl in *; done. }
    split; [|split; [done|split; [done|by rewrite Hreg]]].
    destruct v as [| | | |next|n ok]; simpl in *; try done. by exists next.
  - intros f e Hin Hmiss'. unfold process_scheduled_tasks in Hin.
    assert (Hin' : e ∈ (scan_from from_ical du 0 (_load_tasks_for_scheduler f)
                                  deliver now fired).2).
    { destruct (_load_tasks_for_scheduler f); [|done].
      simpl in Hin. by apply elem_of_nil in Hin. }
    apply scan_from_entries in Hin' as [fired' ->].
    by apply missing_fields_no_delivery.
Qed.

(** *** The fired-once registry *)

Lemma discipline_nil (fired : gset string) : registry_discipline fired [] fired.
Proof.
  split; [done| | |].
  - intros e H. by apply elem_of_nil in H.
  - intros e H. by apply elem_of_nil in H.
  - intros k1 k2 e1 e2 _ H. by rewrite lookup_nil in H.
Qed.

Lemma discipline_app (f0 f1 f2 : gset string) (l1 l2 : list entry) :
  registry_discipline f0 l1 f1 ->
  registry_discipline f1 l2 f2 ->
  registry_discipline f0 (l1 ++ l2) f2.
Proof.
  intros [G1 S1 R1 O1] [G2 S2 R2 O2]. split.
  - set_solver.
  - intros e [H|H]%elem_of_app Hone Hid; [by apply S1|].
    apply S2; [done..|]. set_solver.
  - intros e [H|H]%elem_of_app Hone Hdel; [|by apply R2].
    apply G2. by apply R1.
  - intros k1 k2 e1 e2 Hlt H1 H2 Hone1 Hdel1 Hone2 Hid.
    apply lookup_app_Some in H1 as [H1|[Hk1 H1]];
      apply lookup_app_Some in H2 as [H2|[Hk2 H2]].
    + by apply (O1 k1 k2 e1 e2).
    + apply S2; [by eapply list_elem_of_lookup_2|done|].
      rewrite <- Hid. apply R1; [by eapply list_elem_of_lookup_2|done..].
    + apply lookup_lt_Some in H2. lia.
    + apply (O2 (k1 - length l1)%nat (k2 - length l1)%nat e1 e2); [lia|done..].
Qed.

Lemma registry_after_grows fired i (t : task) v :
  fired ⊆ registry_after fired i t v.
Proof.
  unfold registry_after. destruct v as [| | | | |n [|]]; try done.
  destruct (is_one_off t); set_solver.
Qed.

Lemma evaluate_task_fired fired deliver now i (t : task) :
  is_one_off t = true -> task_id_of i t ∈ fired ->
  evaluate_task from_ical du fired deliver now i t = AlreadyFired.
Proof.
  intros Hone Hin. unfold evaluate_task.
  by rewrite Hone, bool_decide_eq_true_2.
Qed.

Lemma discipline_step fired deliver now i (t : task) :
  let v := evaluate_task from_ical du fired deliver now i t in
  registry_discipline fired [mkEntry i t v] (registry_after fired i t v).
Proof.
  intros v. split.
  - apply registry_after_grows.
  - intros e ->%list_elem_of_singleton Hone Hid.
    by apply evaluate_task_fired.
  - intros e ->%list_elem_of_singleton Hone Hdel.
    unfold one_off_entry, entry_id in *. simpl in *.
    destruct v as [| | | | |n [|]]; simpl in *; try done.
    rewrite Hone. set_solver.
  - intros k1 k2 e1 e2 Hlt H1 H2.
    apply lookup_lt_Some in H2. simpl in H2. lia.
Qed.

Lemma scan_from_discipline tasks :
  forall i deliver now fired,
    registry_discipline fired
      (scan_from from_ical du i tasks deliver now fired).2
      (scan_from from_ical du i tasks deliver now fired).1.
Proof.
  induction tasks as [|t rest IH]; intros i deliver now fired; simpl.
  { apply discipline_nil. }
  specialize (IH (S i) deliver now
                 (registry_after fired i t
                    (evaluate_task from_ical du fired deliver now i t))).
  destruct (scan_from _ _ _ _ _ _ _) as [fired1 log]. simpl in *.
  change (?e :: log) with ([e] ++ log).
  eapply discipline_app; [apply discipline_step|done].
Qed.

Lemma process_discipline f deliver now fired :
  registry_discipline fired
    (process_scheduled_tasks from_ical du f deliver now fired).2
    (process_scheduled_tasks from_ical du f deliver now fired).1.
Proof.
  unfold process_scheduled_tasks.
  destruct (_load_tasks_for_scheduler f) as [|t rest] eqn:Hload.
  - apply discipline_nil.
  - apply scan_from_discipline.
Qed.

Lemma poll_loop_discipline ticks :
  forall fired,
    registry_discipline fired
      (concat (poll_loop from_ical du ticks fired).2)
      (poll_loop from_ical du ticks fired).1.
Proof.
  induction ticks as [|tk rest IH]; intros fired; simpl.
  { apply discipline_nil. }
  pose proof (process_discipline (tick_file tk) (tick_delivery tk)
                                 (tick_now tk) fired) as Hcycle.
  destruct (process_scheduled_tasks _ _ _ _ _ _) as [fired1 log].
  specialize (IH fired1).
  destruct (poll_loop _ _ rest fired1) as [fired2 logs]. simpl in *.
  by eapply discipline_app.
Qed.

(** Over a whole process lifetime, however many cycles it runs and
    whatever the store, the clock and the delivery outcomes are at each,
    once a task that passes the scanner's one-off test has been delivered
    successfully, every later evaluation of a task with that id that passes
    the test, in the same cycle or in a later one, is skipped as already
    fired.  The successful delivery puts the id in the registry at that very
    step; a failed delivery leaves the registry as it was. *)
Theorem one_off_delivered_at_most_once (ticks : list tick) :
  let entries := concat (main from_ical du ticks).2 in
  (forall (k1 k2 : nat) e1 e2,
      (k1 < k2)%nat -> entries !! k1 = Some e1 -> entries !! k2 = Some e2 ->
      one_off_entry e1 -> delivered (e_verdict e1) = true ->
      one_off_entry e2 -> entry_id e1 = entry_id e2 ->
      e_verdict e2 = AlreadyFired /\ delivery_attempted (e_verdict e2) = false) /\
  (forall fired i (t : task) next,
      is_one_off t = true ->
      task_id_of i t ∈ registry_after fired i t (DueInjected next true)) /\
  (forall fired deliver now i (t : task),
      is_one_off t = true -> task_id_of i t ∈ fired ->
      evaluate_task from_ical du fired deliver now i t = AlreadyFired) /\
  (forall fired i (t : task) next,
      registry_after fired i t (DueInjected next false) = fired).
Proof.
  intros entries. split; [|split; [|split]].
  - intros k1 k2 e1 e2 Hlt H1 H2 Hone1 Hdel1 Hone2 Hid.
    pose proof (poll_loop_discipline ticks ∅) as [_ _ _ Honce].
    rewrite (Honce k1 k2 e1 e2); done.
  - intros fired i t next Hone. simpl. rewrite Hone. set_solver.
  - intros. by apply evaluate_task_fired.
  - done.
Qed.

End ScannerFacts.

(** C6, where the code departs from it: a schedule with a start instant,
    no recurrence rule and no additional instants, whose summary holds the
    word rrule.  The scanner's test reads the text, does not take the task
    for a one-off, and delivers it again ten seconds after a successful
    delivery; the registry stays empty. *)
Theorem one_off_with_rule_word_is_delivered_twice (du : Scheduler.dateutil) :
  let parse := Examples.reads_as Examples.one_off_plain in
  let S := Time.at_utc 2024 1 1 9 0 0 in
  Notions.one_off_event Examples.one_off_plain /\
  Scheduler.is_one_off Examples.summary_task = false /\
  Scheduler.main parse du Examples.two_ticks_summary
  = (∅,
     [[Scheduler.mkEntry 0 Examples.summary_task (Scheduler.DueInjected S true)];
      [Scheduler.mkEntry 0 Examples.summary_task (Scheduler.DueInjected S true)]]).
Proof.
  intros parse S. split; [done|]. split; vm_compute; reflexivity.
Qed.

(** ** The task store *)

Section StoreFacts.
Import PyString Store TaskTools.

Lemma append_nil (s : string) : EmptyString +:+ s = s.
Proof. reflexivity. Qed.

Lemma append_cons (c : ascii) (s t : string) :
  String c s +:+ t = String c (s +:+ t).
Proof. reflexivity. Qed.

Lemma prefix_spec (needle hay : string) :
  String.prefix needle hay = true <-> exists post, hay = needle +:+ post.
Proof.
  revert hay. induction needle as [|a needle IH]; intros hay.
  - destruct hay; simpl; split; eauto.
  - destruct hay as [|b hay]; simpl.
    + split; [discriminate|]. intros [post H].
      rewrite append_cons in H. discriminate.
    + destruct (ascii_dec a b) as [->|Hne].
      * rewrite IH. split; intros [post H]; exists post;
          rewrite append_cons in *; congruence.
      * split; [discriminate|]. intros [post H].
        rewrite append_cons in H. congruence.
Qed.

Lemma contains_spec (needle hay : string) :
  contains needle hay = true <-> occurs_in needle hay.
Proof.
  unfold occurs_in. induction hay as [|c hay IH].
  - cbn [contains]. rewrite orb_false_r, prefix_spec. split.
    + intros [post H]. by exists EmptyString, post.
    + intros ([|? ?] & post & H); [by exists post|].
      rewrite append_cons in H. discriminate.
  - cbn [contains]. rewrite orb_true_iff, prefix_spec, IH. split.
    + intros [[post H]|(pre & post & H)].
      * by exists EmptyString, post.
      * exists (String c pre), post. rewrite append_cons. by rewrite H.
    + intros ([|c' pre] & post & H).
      * left. by exists post.
      * right. exists pre, post. rewrite append_cons in H. congruence.
Qed.

Lemma valid_vevent_spec (v : pyval) :
  _is_valid_vevent_basic v = true <->
  exists s, v = PyStr s /\
            occurs_in "BEGIN:VEVENT" s /\ occurs_in "END:VEVENT" s /\
            occurs_in "DTSTART" s.
Proof.
  destruct v as [s| |b]; simpl.
  - rewrite !andb_true_iff, !contains_spec. split.
    + intros [[Hb He] Hd]. by exists s.
    + intros (s' & [= <-] & Hb & He & Hd). done.
  - split; [discriminate|]. intros (s & [=] & _).
  - split; [discriminate|]. intros (s & [=] & _).
Qed.

Lemma valid_vevent_truthy (v : pyval) :
  _is_valid_vevent_basic v = true -> pyval_truthy v = true.
Proof.
  destruct v as [[|c s]| |b]; simpl; try discriminate; done.
Qed.

Lemma create_valid (new_task_id : string) (w : write_outcome)
      (conversation_id user_prompt s : string) (f : file) :
  conversation_id <> EmptyString -> user_prompt <> EmptyString ->
  _is_valid_vevent_basic (PyStr s) = true ->
  create_scheduled_task new_task_id w conversation_id user_prompt (PyStr s) f
  = (Created new_task_id
       (mkTask (Some new_task_id) (Some conversation_id) (Some user_prompt)
               (Some s) (Some "pending")),
     save w (_load_tasks f ++
             [mkTask (Some new_task_id) (Some conversation_id)
                     (Some user_prompt) (Some s) (Some "pending")])).
Proof.
  intros Hc Hp Hok. unfold create_scheduled_task.
  rewrite (valid_vevent_truthy (PyStr s)) by done. rewrite Hok.
  destruct conversation_id as [|? ?]; [done|].
  destruct user_prompt as [|? ?]; [done|]. reflexivity.
Qed.

(** C7, amended: a schedule argument that is not a string holding the
    begin-event marker, the end-event marker and the start-instant property
    makes [create] answer with an error and leave the store as it was, so
    that a listing afterwards is the listing before; when the three fields
    are present and the argument passes the check, [create] answers with
    success and the minted id, and the store holds the earlier records
    followed by the new one provided the write goes through: a write error
    is swallowed and leaves the file as the failed write left it. *)
Theorem create_checks_fragment_before_storing
        (new_task_id : string) (w : write_outcome)
        (conversation_id user_prompt : string) (v : pyval) (f : file) :
  (_is_valid_vevent_basic v = true <->
   exists s, v = PyStr s /\
             occurs_in "BEGIN:VEVENT" s /\ occurs_in "END:VEVENT" s /\
             occurs_in "DTSTART" s) /\
  (_is_valid_vevent_basic v = false ->
   let out := create_scheduled_task new_task_id w conversation_id user_prompt v f in
   is_error out.1 = true /\ out.2 = f /\
   forall c, (list_scheduled_tasks c out.2).1 = (list_scheduled_tasks c f).1) /\
  (conversation_id <> EmptyString -> user_prompt <> EmptyString ->
   _is_valid_vevent_basic v = true ->
   exists s, v = PyStr s /\
     let new_task :=
       mkTask (Some new_task_id) (Some conversation_id) (Some user_prompt)
              (Some s) (Some "pending") in
     let out := create_scheduled_task new_task_id w conversation_id user_prompt v f in
     out.1 = Created new_task_id new_task /\
     (w = Written -> out.2 = TaskList (_load_tasks f ++ [new_task])) /\
     (forall left_behind, w = WriteError left_behind -> out.2 = left_behind)).
Proof.
  split; [apply valid_vevent_spec|]. split.
  - intros Hbad. unfold create_scheduled_task. rewrite Hbad.
    destruct (negb _); simpl; done.
  - intros Hc Hp Hok.
    destruct v as [s| |b]; simpl in Hok; try discriminate.
    exists s. split; [done|]. rewrite create_valid by done. simpl.
    split; [done|]. split; [by intros ->|by intros lb ->].
Qed.

Lemma filter_keeps_all {A} (P : A -> Prop) `{!forall x, Decision (P x)} (l : list A) :
  length (filter P l) = length l <-> forall x, x ∈ l -> P x.
Proof.
  induction l as [|x l IH].
  - split; [|done]. intros _ y Hy. by apply elem_of_nil in Hy.
  - rewrite filter_cons. destruct (decide (P x)) as [HP|HP]; simpl.
    + split.
      * intros [= Hlen] y [->|Hin]%elem_of_cons; [done|]. by apply IH.
      * intros Hall. f_equal. apply IH. intros y Hy. apply Hall. by right.
    + split.
      * intros Hlen. pose proof (length_filter P l). lia.
      * intros Hall. exfalso. apply HP, Hall. by left.
Qed.

(** C10, amended: [delete] answers with success when some record has the
    id [task_id]; the list it writes is the stored one without the records
    of that id, all of them when the id is duplicated, the others in their
    order, and it is in the store provided the write goes through: a write
    error is swallowed and leaves the file as the failed write left it.
    When no record matches, or [task_id] is empty, it answers with an error
    and the file is left exactly as it was. *)
Theorem delete_removes_every_match (w : write_outcome) (task_id : string)
        (f : file) :
  let tasks := _load_tasks f in
  let kept := filter (fun t => id t ≠ Some task_id) tasks in
  (task_id <> EmptyString ->
   (exists t, t ∈ tasks /\ id t = Some task_id) ->
   (delete_scheduled_task w task_id f).1 = Deleted /\
   (w = Written -> (delete_scheduled_task w task_id f).2 = TaskList kept) /\
   (forall left_behind, w = WriteError left_behind ->
                        (delete_scheduled_task w task_id f).2 = left_behind)) /\
  (kept `sublist_of` tasks /\
   (forall t, t ∈ kept <-> t ∈ tasks /\ id t ≠ Some task_id)) /\
  (task_id = EmptyString \/ (forall t, t ∈ tasks -> id t ≠ Some task_id) ->
   is_error (delete_scheduled_task w task_id f).1 = true /\
   (delete_scheduled_task w task_id f).2 = f).
Proof.
  intros tasks kept. split; [|split].
  - intros Hne (t & Hin & Hid). unfold delete_scheduled_task.
    destruct task_id as [|c rest]; [done|].
    fold tasks. fold kept.
    destruct (length kept =? length tasks)%nat eqn:Hlen.
    + apply Nat.eqb_eq in Hlen. exfalso.
      apply (proj1 (filter_keeps_all _ tasks) Hlen t Hin). exact Hid.
    + simpl. split; [done|]. split; [by intros ->|by intros lb ->].
  - split; [apply sublist_filter|].
    intros t. unfold kept. rewrite list_elem_of_filter. tauto.
  - intros [->|Hnone]; [done|]. unfold delete_scheduled_task.
    destruct task_id as [|c rest]; [done|].
    fold tasks. fold kept.
    assert (Hlen : length kept = length tasks)
      by (by apply filter_keeps_all).
    apply Nat.eqb_eq in Hlen. by rewrite Hlen.
Qed.

End StoreFacts.

(** C7 as stated fails: with every field present and a schedule that passes
    the check, [create] answers with success although the write failed and
    the new record is not in the store. *)
Lemma create_reports_success_when_write_fails :
  let f := Store.TaskList [Examples.plain_task "id-1"] in
  let out := TaskTools.create_scheduled_task "id-2" (Store.WriteError f)
               "conv-1" "say hello" (TaskTools.PyStr Examples.plain_vevent) f in
  TaskTools._is_valid_vevent_basic (TaskTools.PyStr Examples.plain_vevent) = true /\
  out.1 = TaskTools.Created "id-2" (Examples.plain_task "id-2") /\
  out.2 = f /\
  (TaskTools.list_scheduled_tasks None out.2).1
  = TaskTools.Listed [Examples.plain_task "id-1"].
Proof. vm_compute. repeat split; reflexivity. Qed.

(** C10 as stated fails: [delete] of an id that two records bear answers
    with success although the write failed, and both records are still in
    the store. *)
Lemma delete_reports_success_when_write_fails :
  let f := Examples.store_with_duplicate in
  let out := TaskTools.delete_scheduled_task (Store.WriteError f) "id-1" f in
  out.1 = TaskTools.Deleted /\
  out.2 = f /\
  Store.load out.2
  = [Examples.plain_task "id-1"; Examples.plain_task "id-2";
     Examples.plain_task "id-1"].
Proof. vm_compute. repeat split; reflexivity. Qed.

(** C8 as stated fails: on a file that is not JSON, [create] with valid
    arguments succeeds and replaces the file, and [list] succeeds. *)
Lemma unreadable_store_create_succeeds :
  let f := Examples.broken_store in
  Store.unreadable f /\
  ~ TaskTools.fails_leaving_store
      (TaskTools.create_scheduled_task "id-1" Store.Written "conv-1" "say hello"
         (TaskTools.PyStr Examples.plain_vevent) f) f /\
  (TaskTools.create_scheduled_task "id-1" Store.Written "conv-1" "say hello"
     (TaskTools.PyStr Examples.plain_vevent) f).2
  = Store.TaskList [Examples.plain_task "id-1"] /\
  ~ TaskTools.fails_leaving_store (TaskTools.list_scheduled_tasks None f) f.
Proof.
  split; [exact I|]. split; [|split].
  - intros [Herr _]. vm_compute in Herr. discriminate.
  - vm_compute. reflexivity.
  - intros [Herr _]. vm_compute in Herr. discriminate.
Qed.

(** C8, amended: while the stored collection is unreadable every store
    operation reads it as the empty collection.  [list] succeeds with no
    records and [delete] fails, both leaving the file as it is; a [create]
    that fails its checks leaves the file as it is; a [create] that passes
    them answers with success, and when its write goes through the file is
    replaced by a list holding the new record alone, while a write error is
    swallowed and leaves the file as the failed write left it. *)
Theorem unreadable_store_reads_as_empty (f : Store.file) :
  Store.unreadable f ->
  (forall c, TaskTools.list_scheduled_tasks c f = (TaskTools.Listed [], f)) /\
  (forall w task_id,
      TaskTools.fails_leaving_store
        (TaskTools.delete_scheduled_task w task_id f) f) /\
  (forall new_task_id w conversation_id user_prompt v,
      conversation_id = EmptyString \/ user_prompt = EmptyString \/
      TaskTools._is_valid_vevent_basic v = false ->
      TaskTools.fails_leaving_store
        (TaskTools.create_scheduled_task new_task_id w conversation_id
           user_prompt v f) f) /\
  (forall new_task_id w conversation_id user_prompt s,
      conversation_id <> EmptyString -> user_prompt <> EmptyString ->
      TaskTools._is_valid_vevent_basic (TaskTools.PyStr s) = true ->
      let new_task :=
        Store.mkTask (Some new_task_id) (Some conversation_id)
                     (Some user_prompt) (Some s) (Some "pending") in
      let out := TaskTools.create_scheduled_task new_task_id w conversation_id
                   user_prompt (TaskTools.PyStr s) f in
      out.1 = TaskTools.Created new_task_id new_task /\
      (w = Store.Written -> out.2 = Store.TaskList [new_task]) /\
      (forall left_behind, w = Store.WriteError left_behind ->
                           out.2 = left_behind)).
Proof.
  intros Hbad.
  assert (Hload : TaskTools._load_tasks f = []).
  { destruct f; simpl in Hbad; try done. }
  split; [|split; [|split]].
  - intros c. unfold TaskTools.list_scheduled_tasks. rewrite Hload.
    destruct c as [[|? ?]|]; done.
  - intros w task_id. unfold TaskTools.delete_scheduled_task. rewrite Hload.
    destruct task_id; split; done.
  - intros new_task_id w conversation_id user_prompt v Hfail.
    unfold TaskTools.create_scheduled_task.
    destruct conversation_id as [|? ?]; [split; done|].
    destruct user_prompt as [|? ?]; [split; done|].
    destruct Hfail as [Hc|[Hp|Hv]]; [done..|].
    rewrite Hv. destruct (negb _); split; done.
  - intros new_task_id w conversation_id user_prompt s Hc Hp Hok new_task out.
    subst out. rewrite create_valid by done. rewrite Hload. simpl.
    split; [done|]. split; [by intros ->|by intros lb ->].
Qed.

(** * Further properties of the code *)

(** ** The resolver: what it reads and what it never reaches *)

Section ResolverReach.
Import Time Store Scheduler Notions.

Variable from_ical : string -> option event.
Variable du : dateutil.

(** The resolver reads neither the RDATE nor the EXDATE property of an
    event: two schedules with the same start instant and the same rule
    resolve alike at every instant, whatever additional or excluded
    instants either carries. *)
Theorem resolver_reads_neither_rdate_nor_exdate
        (task_id v v' : string) (ev ev' : event) (now : Z) :
  from_ical v = Some ev ->
  from_ical v' = Some ev' ->
  DTSTART ev = DTSTART ev' ->
  RRULE ev = RRULE ev' ->
  calculate_next_occurrence from_ical du task_id v now
  = calculate_next_occurrence from_ical du task_id v' now.
Proof.
  intros Hv Hv' HS Hp. unfold calculate_next_occurrence.
  rewrite Hv, Hv', !next_occurrence_of_event_reduced, HS, Hp. reflexivity.
Qed.

(** Every schedule that carries a recurrence rule resolves to [None], at
    every instant and whatever [dateutil] would compute: the resolver
    raises at [rrule_prop.to_dict()], or before it at the start instant,
    and the handler turns the exception into [None]. *)
Theorem recurring_schedule_resolves_to_none
        (task_id vevent : string) (ev : event) (p : vRecur) (now : Z) :
  from_ical vevent = Some ev ->
  RRULE ev = Some p ->
  p <> [] ->
  calculate_next_occurrence from_ical du task_id vevent now = None.
Proof. apply calculate_recurring. Qed.

End ResolverReach.

(** ** The scanner: what a cycle does and does not do *)

Section ScannerCycle.
Import Time PyString Store Scheduler Notions.

Variable from_ical : string -> option event.
Variable du : dateutil.

(** A cycle that finds no file, an empty file, a file it cannot read or an
    empty list evaluates nothing: no log entry, and the registry as it
    was. *)
Theorem cycle_without_tasks_is_idle (f : file) deliver now fired :
  f = Absent \/ f = Empty \/ unreadable f \/ f = TaskList [] ->
  process_scheduled_tasks from_ical du f deliver now fired = (fired, []).
Proof.
  intros [->|[->|[Hbad| ->]]]; try done.
  destruct f; simpl in Hbad; done.
Qed.

(** *** Who enters the registry *)

Lemma justified_nil (fired : gset string) : registry_justified fired [] fired.
Proof. intros x Hx. by left. Qed.

Lemma justified_app (f0 f1 f2 : gset string) (l1 l2 : list entry) :
  registry_justified f0 l1 f1 ->
  registry_justified f1 l2 f2 ->
  registry_justified f0 (l1 ++ l2) f2.
Proof.
  intros H1 H2 x Hx.
  destruct (H2 x Hx) as [Hf1|(e & He & Hrest)].
  - destruct (H1 x Hf1) as [Hf0|(e & He & Hrest)]; [by left|].
    right. exists e. split; [|done]. apply elem_of_app. by left.
  - right. exists e. split; [|done]. apply elem_of_app. by right.
Qed.

Lemma justified_step fired i (t : task) v :
  registry_justified fired [mkEntry i t v] (registry_after fired i t v).
Proof.
  intros x Hx. unfold registry_after in Hx.
  destruct v as [| | | | |n [|]]; try by left.
  destruct (is_one_off t) eqn:Hone; [|by left].
  apply elem_of_union in Hx as [Hx%elem_of_singleton|Hx]; [|by left].
  right. exists (mkEntry i t (DueInjected n true)).
  split; [by apply list_elem_of_singleton|]. done.
Qed.

Lemma scan_from_justified tasks :
  forall i deliver now fired,
    registry_justified fired
      (scan_from from_ical du i tasks deliver now fired).2
      (scan_from from_ical du i tasks deliver now fired).1.
Proof.
  induction tasks as [|t rest IH]; intros i deliver now fired; simpl.
  { apply justified_nil. }
  specialize (IH (S i) deliver now
                 (registry_after fired i t
                    (evaluate_task from_ical du fired deliver now i t))).
  destruct (scan_from _ _ _ _ _ _ _) as [fired1 log]. simpl in *.
  change (?e :: log) with ([e] ++ log).
  eapply justified_app; [apply justified_step|done].
Qed.

Lemma poll_loop_justified ticks :
  forall fired,
    registry_justified fired
      (concat (poll_loop from_ical du ticks fired).2)
      (poll_loop from_ical du ticks fired).1.
Proof.
  induction ticks as [|tk rest IH]; intros fired; simpl.
  { apply justified_nil. }
  assert (Hcycle :
            registry_justified fired
              (process_scheduled_tasks from_ical du (tick_file tk)
                 (tick_delivery tk) (tick_now tk) fired).2
              (process_scheduled_tasks from_ical du (tick_file tk)
                 (tick_delivery tk) (tick_now tk) fired).1).
  { unfold process_scheduled_tasks.
    destruct (_load_tasks_for_scheduler (tick_file tk)) eqn:Hload.
    - apply justified_nil.
    - apply scan_from_justified. }
  destruct (process_scheduled_tasks _ _ _ _ _ _) as [fired1 log].
  specialize (IH fired1).
  destruct (poll_loop _ _ rest fired1) as [fired2 logs]. simpl in *.
  by eapply justified_app.
Qed.

(** Over any run of the poll loop the registry only grows, and every id it
    holds at the end is the id of a one-off task that some cycle delivered
    successfully: nothing is marked fired without a successful delivery. *)
Theorem registry_holds_only_delivered_one_offs (ticks : list tick) :
  let fired := (main from_ical du ticks).1 in
  let entries := concat (main from_ical du ticks).2 in
  forall x, x ∈ fired ->
            exists e, e ∈ entries /\ entry_id e = x /\ one_off_entry e /\
                      delivered (e_verdict e) = true.
Proof.
  intros fired entries x Hx.
  destruct (poll_loop_justified ticks ∅ x Hx) as [Hempty|He]; [|done].
  by apply not_elem_of_empty in Hempty.
Qed.

(** The registry never loses an id, within a cycle or across cycles. *)
Theorem registry_only_grows (ticks : list tick) (fired : gset string) :
  fired ⊆ (poll_loop from_ical du ticks fired).1.
Proof. apply (rd_grows _ _ _ (poll_loop_discipline from_ical du ticks fired)). Qed.

(** A task whose text is not one-off is judged without regard to the
    registry: it is never skipped as already fired, and whatever its
    verdict it leaves the registry as it was. *)
Theorem recurring_task_ignores_registry fired deliver now i (t : task) :
  is_one_off t = false ->
  evaluate_task from_ical du fired deliver now i t
  = evaluate_task from_ical du ∅ deliver now i t /\
  evaluate_task from_ical du fired deliver now i t <> AlreadyFired /\
  forall v, registry_after fired i t v = fired.
Proof.
  intros Hrec. unfold evaluate_task, registry_after. rewrite Hrec. simpl.
  split; [done|]. split.
  - destruct (schedule_vevent t) as [[|c vs]|]; try done.
    destruct (calculate_next_occurrence _ _ _ _ _) as [next|]; [|done].
    destruct (is_due next now); [|done].
    destruct (conversation_id t) as [[|? ?]|]; try done;
      destruct (user_prompt t) as [[|? ?]|]; done.
  - intros v. destruct v as [| | | | |n [|]]; done.
Qed.

(** A delivery call is made only for a task that is not a fired one-off,
    has a non-empty schedule text that resolves to an occurrence no later
    than [now] plus five seconds, and carries a non-empty conversation id
    and prompt; the call passes exactly these two fields and the task id,
    and its outcome is the one recorded. *)
Theorem delivery_call_conditions fired deliver now i (t : task) next ok :
  evaluate_task from_ical du fired deliver now i t = DueInjected next ok ->
  exists vevent conv prompt,
    schedule_vevent t = Some vevent /\ vevent <> EmptyString /\
    conversation_id t = Some conv /\ conv <> EmptyString /\
    user_prompt t = Some prompt /\ prompt <> EmptyString /\
    calculate_next_occurrence from_ical du (task_id_of i t) vevent now = Some next /\
    next <= now + seconds 5 /\
    ~ (is_one_off t = true /\ task_id_of i t ∈ fired) /\
    ok = deliver i conv prompt (task_id_of i t).
Proof.
  unfold evaluate_task.
  destruct (is_one_off t && bool_decide (task_id_of i t ∈ fired)) eqn:Hskip;
    [discriminate|].
  destruct (schedule_vevent t) as [[|c vs]|]; try discriminate.
  destruct (calculate_next_occurrence _ _ _ _ _) as [n|] eqn:Hcalc; [|discriminate].
  destruct (is_due n now) eqn:Hdue; [|discriminate].
  destruct (conversation_id t) as [[|c1 conv]|]; try discriminate;
    destruct (user_prompt t) as [[|c2 prompt]|]; try discriminate.
  intros [= <- <-].
  exists (String c vs), (String c1 conv), (String c2 prompt).
  repeat split; try done.
  - by apply is_due_spec.
  - intros [Hone Hin]. rewrite Hone in Hskip.
    by rewrite bool_decide_eq_true_2 in Hskip.
Qed.

End ScannerCycle.

(** ** The one-off test reads the text *)

Section OneOffText.
Import PyString Store Scheduler.

Lemma upper_app (a b : string) : upper (a +:+ b) = upper a +:+ upper b.
Proof.
  induction a as [|c a IH]; [done|].
  rewrite append_cons. cbn [upper]. rewrite append_cons. by rewrite IH.
Qed.

(** A task whose schedule text mentions RRULE or RDATE anywhere, in any
    letter case, is not treated as one-off, whatever property of the event
    the word stands in. *)
Theorem text_mentioning_recurrence_is_not_one_off (t : task) (text w : string) :
  schedule_vevent t = Some text ->
  occurs_in w text ->
  upper w = "RRULE" \/ upper w = "RDATE" ->
  is_one_off t = false.
Proof.
  intros Hv (pre & post & ->) Hw. unfold is_one_off. rewrite Hv.
  change (default EmptyString (Some (pre +:+ w +:+ post)))
    with (pre +:+ w +:+ post).
  rewrite !upper_app.
  assert (Hin : contains (upper w) (upper pre +:+ upper w +:+ upper post) = true).
  { apply contains_spec. by exists (upper pre), (upper post). }
  destruct Hw as [Hw|Hw]; rewrite Hw in Hin |- *; rewrite Hin; simpl; [done|].
  by rewrite andb_false_r.
Qed.

End OneOffText.

(** ** Delivery, from the scheduler to the session queue *)

Section DeliveryPath.
Import Time PyString Store Scheduler Delivery MainApp.

Variable queue : Type.
Variable send_content : queue -> string -> option queue.

Lemma session_injection_iff (session_id user_prompt : string)
      (queues : gmap string queue) :
  (inject_prompt_into_session queue send_content session_id user_prompt
                              queues).1 = true <->
  exists q q', queues !! session_id = Some q /\
               send_content q user_prompt = Some q'.
Proof.
  unfold inject_prompt_into_session.
  destruct (queues !! session_id) as [q|] eqn:Hq;
    [destruct (send_content q user_prompt) as [q'|] eqn:Hsend|]; simpl.
  - split; [by exists q, q'|done].
  - split; [discriminate|]. intros (q0 & q0' & [= <-] & Hs). congruence.
  - split; [discriminate|]. intros (q0 & q0' & [=] & _).
Qed.

(** [inject_prompt_into_session] succeeds exactly when the session has an
    active queue and the queue takes the prompt; then that queue alone is
    replaced by the one with the prompt sent, and on failure the table of
    queues is as it was. *)
Theorem session_injection (session_id user_prompt : string)
        (queues : gmap string queue) :
  let out := inject_prompt_into_session queue send_content session_id
                                        user_prompt queues in
  (out.1 = true <->
   exists q q', queues !! session_id = Some q /\
                send_content q user_prompt = Some q') /\
  (out.1 = false -> out.2 = queues) /\
  (forall other, other <> session_id -> out.2 !! other = queues !! other) /\
  (forall q q', queues !! session_id = Some q ->
                send_content q user_prompt = Some q' ->
                out.2 !! session_id = Some q').
Proof.
  unfold inject_prompt_into_session.
  destruct (queues !! session_id) as [q|] eqn:Hq;
    [destruct (send_content q user_prompt) as [q'|] eqn:Hsend|]; simpl.
  - split; [split; [by exists q, q'|done]|]. split; [discriminate|].
    split; [intros other Hne; by rewrite lookup_insert_ne|].
    intros q0 q0' [= <-] Hs. rewrite Hs in Hsend. injection Hsend as ->.
    by rewrite lookup_insert_eq.
  - split; [split; [discriminate|]|].
    { intros (q0 & q0' & [= <-] & Hs). congruence. }
    split; [done|]. split; [done|]. intros q0 q0' [= <-] Hs. congruence.
  - split; [split; [discriminate|]|].
    { intros (q0 & q0' & [=] & _). }
    split; [done|]. split; [done|]. intros q0 q0' [=].
Qed.

Lemma delivery_over_app (queues : gmap string queue) i conv prompt task_id :
  delivery_over (post_to_app queue send_content queues) i conv prompt task_id
  = (inject_prompt_into_session queue send_content conv prompt queues).1.
Proof.
  unfold delivery_over, inject_prompt_via_api, post_to_app,
    api_inject_task_prompt. simpl.
  destruct (inject_prompt_into_session _ _ _ _ _) as [[|] qs]; done.
Qed.

(** The scheduler counts a delivery as made only when the answer has
    status 200 and a JSON body; through the application's endpoint that is
    exactly when the task's conversation has an active queue that takes the
    prompt.  Any other answer, 404 for an unknown conversation among them,
    and any transport failure count as not delivered. *)
Theorem delivery_succeeds_only_for_active_session
        (post : payload -> http_outcome) (queues : gmap string queue)
        i conv prompt task_id :
  (inject_prompt_via_api post conv prompt task_id = true <->
   post (mkPayload conv prompt task_id) = Responded 200 true) /\
  (delivery_over (post_to_app queue send_content queues) i conv prompt task_id
   = true <->
   exists q q', queues !! conv = Some q /\ send_content q prompt = Some q') /\
  (queues !! conv = None ->
   post_to_app queue send_content queues (mkPayload conv prompt task_id)
   = Responded 404 true).
Proof.
  split; [|split].
  - unfold inject_prompt_via_api.
    destruct (post _) as [code json|]; [|split; discriminate].
    destruct (code =? 200) eqn:Hcode.
    + apply Z.eqb_eq in Hcode as ->. split; [by intros ->|by intros [= ->]].
    + apply Z.eqb_neq in Hcode. split; [discriminate|]. intros [= -> _]. done.
  - rewrite delivery_over_app.
    apply (session_injection_iff conv prompt queues).
  - intros Hnone. unfold post_to_app, api_inject_task_prompt,
      inject_prompt_into_session. simpl. by rewrite Hnone.
Qed.

Variable from_ical : string -> option event.
Variable du : dateutil.

(** A due task whose conversation has no active queue is called for, the
    call fails, and the registry stays as it was: a one-off task remains
    pending for the next cycle. *)
Theorem task_for_inactive_session_stays_pending
        (queues : gmap string queue) fired now i (t : task)
        vevent conv prompt next :
  is_one_off t && bool_decide (task_id_of i t ∈ fired) = false ->
  schedule_vevent t = Some vevent -> vevent <> EmptyString ->
  conversation_id t = Some conv -> conv <> EmptyString ->
  user_prompt t = Some prompt -> prompt <> EmptyString ->
  calculate_next_occurrence from_ical du (task_id_of i t) vevent now = Some next ->
  next <= now + seconds 5 ->
  queues !! conv = None ->
  let v := evaluate_task from_ical du fired
             (delivery_over (post_to_app queue send_content queues)) now i t in
  v = DueInjected next false /\ registry_after fired i t v = fired.
Proof.
  intros Hreach Hv Hne Hc Hcne Hp Hpne Hcalc Hdue Hnone v. subst v.
  rewrite (evaluate_task_resolved from_ical du _ _ _ _ _ vevent next) by done.
  apply is_due_spec in Hdue. rewrite Hdue, Hc, Hp.
  destruct conv as [|? ?]; [done|]. destruct prompt as [|? ?]; [done|].
  simpl. rewrite delivery_over_app.
  unfold inject_prompt_into_session. rewrite Hnone. done.
Qed.

End DeliveryPath.

(** ** When a task fires *)

Section FiringWindows.
Import Time PyString Store Scheduler Notions.

Variable from_ical : string -> option event.
Variable du : dateutil.

(** The verdict on a task that reaches the resolver and carries both
    delivery fields. *)
Lemma evaluate_task_reached fired deliver now i (t : task) vevent :
  is_one_off t && bool_decide (task_id_of i t ∈ fired) = false ->
  schedule_vevent t = Some vevent ->
  vevent <> EmptyString ->
  truthy (conversation_id t) = true ->
  truthy (user_prompt t) = true ->
  delivery_attempted (evaluate_task from_ical du fired deliver now i t) = true <->
  exists next,
    calculate_next_occurrence from_ical du (task_id_of i t) vevent now = Some next /\
    next <= now + seconds 5.
Proof.
  intros Hreach Hv Hne Hc Hp. unfold evaluate_task.
  rewrite Hreach, Hv. destruct vevent as [|c vs]; [done|].
  destruct (calculate_next_occurrence _ _ _ _ _) as [next|]; simpl.
  - pose proof (is_due_spec next now) as Hdue.
    destruct (is_due next now); simpl.
    + destruct (conversation_id t) as [[|? ?]|]; try discriminate.
      destruct (user_prompt t) as [[|? ?]|]; try discriminate.
      simpl. split; [|done]. intros _. exists next. split; [done|]. by apply Hdue.
    + split; [discriminate|]. intros (n & [= <-] & Hle).
      apply Hdue in Hle. discriminate.
  - split; [discriminate|]. intros (n & [=] & _).
Qed.

(** What a schedule without a rule resolves to, at any [now]. *)
Lemma calculate_one_off_iff (task_id vevent : string) (ev : event)
      (S : datetime) (now t : Z) :
  from_ical vevent = Some ev ->
  DTSTART ev = Some S ->
  RRULE ev = None ->
  calculate_next_occurrence from_ical du task_id vevent now = Some t <->
  _make_dt_aware S = Ok t /\
  datetime_min <= now - minutes 5 <= datetime_max /\
  now - minutes 5 <= t.
Proof.
  intros Hparse HS Hp. unfold calculate_next_occurrence.
  rewrite Hparse, next_occurrence_of_event_reduced, HS, Hp.
  destruct (_make_dt_aware S) as [s|e]; simpl.
  - rewrite first_candidate_one_off. unfold sub_timedelta.
    destruct (checked (now - minutes 5)) as [oldest|e] eqn:Hsub; simpl.
    + apply checked_Ok in Hsub as [-> Hrange].
      destruct (now - minutes 5 <=? s) eqn:Hcmp.
      * apply Z.leb_le in Hcmp. split; [by intros [= <-]|by intros ([= <-] & _)].
      * apply Z.leb_gt in Hcmp. split; [discriminate|].
        intros ([= <-] & _ & Hle). lia.
    + split; [discriminate|]. intros (_ & Hrange & _).
      assert (Hok : checked (now - minutes 5) = Ok (now - minutes 5))
        by (by apply checked_Ok).
      congruence.
  - split; [discriminate|]. intros ([=] & _).
Qed.

(** A task whose schedule has a start instant and no rule (both delivery
    fields present, not skipped by the registry) gets a delivery call at a
    poll instant [now] exactly when the start instant can be normalised to
    UTC, [now] less five minutes is a datetime, and [now] lies from five
    seconds before the start instant to five minutes after it. *)
Theorem one_off_task_fires_within_window fired deliver now i (t : task) vevent
        (ev : event) (S : datetime) :
  from_ical vevent = Some ev ->
  DTSTART ev = Some S ->
  RRULE ev = None ->
  is_one_off t && bool_decide (task_id_of i t ∈ fired) = false ->
  schedule_vevent t = Some vevent ->
  vevent <> EmptyString ->
  truthy (conversation_id t) = true ->
  truthy (user_prompt t) = true ->
  delivery_attempted (evaluate_task from_ical du fired deliver now i t) = true <->
  exists s, _make_dt_aware S = Ok s /\
            datetime_min <= now - minutes 5 <= datetime_max /\
            s - seconds 5 <= now <= s + minutes 5.
Proof.
  intros Hparse HS Hp Hreach Hv Hne Hc Hpr.
  rewrite (evaluate_task_reached fired deliver now i t vevent) by done.
  split.
  - intros (next & Hcalc & Hdue).
    apply (calculate_one_off_iff _ vevent ev S) in Hcalc as (Hs & Hrange & Hle);
      try done.
    exists next. split; [done|]. split; [done|]. lia.
  - intros (s & Hs & Hrange & Hlo & Hhi). exists s. split; [|lia].
    apply (calculate_one_off_iff _ vevent ev S); try done.
    split; [done|]. split; [done|]. lia.
Qed.

(** A task whose schedule carries a recurrence rule never gets a delivery
    call, at any poll instant and whatever the registry holds, and it never
    changes the registry: the resolver has no occurrence for it. *)
Theorem recurring_task_is_never_delivered fired deliver now i (t : task) vevent
        (ev : event) (p : vRecur) :
  from_ical vevent = Some ev ->
  RRULE ev = Some p ->
  p <> [] ->
  schedule_vevent t = Some vevent ->
  let v := evaluate_task from_ical du fired deliver now i t in
  delivery_attempted v = false /\
  (v = AlreadyFired \/ v = NoVevent \/ v = NoOccurrence) /\
  registry_after fired i t v = fired.
Proof.
  intros Hparse Hp Hne Hv v. subst v. unfold evaluate_task.
  destruct (is_one_off t && _); [by auto|].
  rewrite Hv. destruct vevent as [|c vs]; [by auto|].
  rewrite (calculate_recurring from_ical du _ _ ev p) by done. by auto.
Qed.

End FiringWindows.

(** ** The task store: how the operations compose *)

Section StoreComposition.
Import PyString Store TaskTools.

Lemma create_error_unchanged (new_task_id : string) (w : write_outcome)
      (conversation_id user_prompt : string) (v : pyval) (f : file) :
  let out := create_scheduled_task new_task_id w conversation_id user_prompt v f in
  is_error out.1 = true -> out.2 = f.
Proof.
  unfold create_scheduled_task.
  destruct (negb (truthy (Some conversation_id) && truthy (Some user_prompt)
                  && pyval_truthy v)); [done|].
  destruct (negb (_is_valid_vevent_basic v)); [done|]. simpl. discriminate.
Qed.

Lemma create_Created_inv (new_task_id : string) (w : write_outcome)
      (conversation_id user_prompt : string) (v : pyval) (f : file) :
  is_error (create_scheduled_task new_task_id w conversation_id user_prompt v f).1
  = false ->
  conversation_id <> EmptyString /\ user_prompt <> EmptyString /\
  exists s, v = PyStr s /\ _is_valid_vevent_basic (PyStr s) = true.
Proof.
  unfold create_scheduled_task.
  destruct conversation_id as [|c1 conv]; [simpl; discriminate|].
  destruct user_prompt as [|c2 prompt]; [simpl; discriminate|].
  destruct (pyval_truthy v); simpl; [|discriminate].
  destruct (_is_valid_vevent_basic v) eqn:Hok; simpl; [|discriminate].
  intros _. split; [done|]. split; [done|].
  destruct v as [s| |b]; simpl in Hok; try discriminate. by exists s.
Qed.

(** [create] succeeds exactly when the conversation id and the prompt are
    not empty and the schedule passes the structural check, however the
    write ends; in every other case it answers with an error and the file
    is as it was. *)
Theorem create_succeeds_iff (new_task_id : string) (w : write_outcome)
        (conversation_id user_prompt : string) (v : pyval) (f : file) :
  let out := create_scheduled_task new_task_id w conversation_id user_prompt v f in
  (is_error out.1 = false <->
   conversation_id <> EmptyString /\ user_prompt <> EmptyString /\
   _is_valid_vevent_basic v = true) /\
  (is_error out.1 = true -> out.2 = f).
Proof.
  intros out. split; [|apply create_error_unchanged]. split.
  - intros Hok. apply create_Created_inv in Hok as (Hc & Hp & s & -> & Hv). done.
  - intros (Hc & Hp & Hv). subst out.
    destruct v as [s| |b]; simpl in Hv; try discriminate.
    by rewrite create_valid.
Qed.

(** After a successful [create] whose write went through, a listing of
    everything returns the earlier records followed by the new one, and a
    listing for the new record's conversation returns the earlier records
    of that conversation followed by the new one. *)
Theorem create_then_list (new_task_id conversation_id user_prompt s : string)
        (f : file) :
  conversation_id <> EmptyString -> user_prompt <> EmptyString ->
  _is_valid_vevent_basic (PyStr s) = true ->
  let new_task :=
    mkTask (Some new_task_id) (Some conversation_id) (Some user_prompt)
           (Some s) (Some "pending") in
  let f' := (create_scheduled_task new_task_id Written conversation_id
                                   user_prompt (PyStr s) f).2 in
  (list_scheduled_tasks None f').1 = Listed (_load_tasks f ++ [new_task]) /\
  (list_scheduled_tasks (Some conversation_id) f').1
  = Listed (filter (fun t => Store.conversation_id t = Some conversation_id)
                   (_load_tasks f) ++ [new_task]).
Proof.
  intros Hc Hp Hv new_task f'. subst f'. rewrite create_valid by done.
  fold new_task. simpl. split; [done|].
  destruct conversation_id as [|c conv]; [done|].
  simpl. rewrite filter_app. f_equal. f_equal.
  rewrite filter_cons_True by done. done.
Qed.

Lemma filter_all {A} (P : A -> Prop) `{!forall x, Decision (P x)} (l : list A) :
  (forall x, x ∈ l -> P x) -> filter P l = l.
Proof.
  induction l as [|x l IH]; intros Hall; [done|].
  rewrite filter_cons_True by (apply Hall; by left).
  f_equal. apply IH. intros y Hy. apply Hall. by right.
Qed.

(** Deleting the id a successful [create] has just minted, when no earlier
    record bears it and both writes go through, brings the stored list
    back to what it was. *)
Theorem create_then_delete (new_task_id conversation_id user_prompt s : string)
        (f : file) :
  conversation_id <> EmptyString -> user_prompt <> EmptyString ->
  _is_valid_vevent_basic (PyStr s) = true ->
  new_task_id <> EmptyString ->
  (forall t, t ∈ _load_tasks f -> id t ≠ Some new_task_id) ->
  delete_scheduled_task Written new_task_id
    (create_scheduled_task new_task_id Written conversation_id user_prompt
                           (PyStr s) f).2
  = (Deleted, TaskList (_load_tasks f)).
Proof.
  intros Hc Hp Hv Hid Hfresh. rewrite create_valid by done.
  unfold delete_scheduled_task. destruct new_task_id as [|c rest]; [done|].
  cbn [snd _load_tasks load save]. rewrite filter_app.
  rewrite filter_all by done.
  rewrite filter_cons_False by (simpl; intros H; by apply H).
  rewrite filter_nil, app_nil_r, length_app. simpl.
  destruct (length (_load_tasks f) =? length (_load_tasks f) + 1)%nat eqn:Hlen;
    [|done].
  apply Nat.eqb_eq in Hlen. lia.
Qed.

(** After a [delete] whose write, if it made one, went through, a second
    [delete] of the same id fails, however its own write would end, and
    leaves the file as the first one left it. *)
Theorem delete_twice_fails (w : write_outcome) (task_id : string) (f : file) :
  fails_leaving_store
    (delete_scheduled_task w task_id (delete_scheduled_task Written task_id f).2)
    (delete_scheduled_task Written task_id f).2.
Proof.
  unfold fails_leaving_store, delete_scheduled_task.
  destruct task_id as [|c rest]; [done|].
  set (P := fun t : task => id t ≠ Some (String c rest)).
  destruct (length (filter P (_load_tasks f)) =? length (_load_tasks f))%nat
    eqn:Hlen; cbn [snd].
  - rewrite Hlen. done.
  - cbn [_load_tasks load _save_tasks save].
    rewrite (filter_all P (filter P (load f))).
    + by rewrite Nat.eqb_refl.
    + intros t Ht. apply list_elem_of_filter in Ht. tauto.
Qed.

(** [list] never writes, and what it returns is part of the stored list in
    stored order: all of it without a filter or with an empty one, and with
    a filter exactly the records of that conversation. *)
Theorem list_reads_only (c : option string) (f : file) :
  (list_scheduled_tasks c f).2 = f /\
  exists tasks,
    (list_scheduled_tasks c f).1 = Listed tasks /\
    tasks `sublist_of` _load_tasks f /\
    (truthy c = false -> tasks = _load_tasks f) /\
    (forall k, c = Some k -> k <> EmptyString ->
               forall t, t ∈ tasks <->
                         t ∈ _load_tasks f /\ Store.conversation_id t = Some k).
Proof.
  unfold list_scheduled_tasks.
  destruct c as [[|a k]|]; simpl.
  - split; [done|]. exists (_load_tasks f).
    split; [done|]. split; [done|]. split; [done|].
    intros k' [= <-] Hne. done.
  - split; [done|]. eexists. split; [done|]. split; [apply sublist_filter|].
    split; [discriminate|]. intros k' [= <-] _ t.
    rewrite list_elem_of_filter. tauto.
  - split; [done|]. exists (_load_tasks f).
    split; [done|]. split; [done|]. split; [done|]. intros k' [=].
Qed.

Variable from_ical : string -> option Scheduler.event.
Variable du : Scheduler.dateutil.

(** A record written by [create] is complete for the scanner: it is never
    skipped for want of a schedule text and never found due with a delivery
    field missing, and the scanner knows it by the minted id. *)
Theorem created_task_is_complete
        (new_task_id : string) (w : write_outcome)
        (conversation_id user_prompt : string) (v : pyval) (f : file)
        fired deliver now i :
  is_error (create_scheduled_task new_task_id w conversation_id user_prompt v f).1
  = false ->
  exists new_task,
    (create_scheduled_task new_task_id w conversation_id user_prompt v f).1
    = Created new_task_id new_task /\
    Scheduler.task_id_of i new_task = new_task_id /\
    Scheduler.evaluate_task from_ical du fired deliver now i new_task
    <> Scheduler.NoVevent /\
    forall next,
      Scheduler.evaluate_task from_ical du fired deliver now i new_task
      <> Scheduler.DueMissingFields next.
Proof.
  intros Hok. apply create_Created_inv in Hok as (Hc & Hp & s & -> & Hv).
  rewrite create_valid by done. eexists. split; [done|]. split; [done|].
  unfold Scheduler.evaluate_task. simpl.
  destruct (_ && _); [done|].
  destruct s as [|a s]; [done|].
  destruct (Scheduler.calculate_next_occurrence _ _ _ _ _) as [next|]; [|done].
  destruct (Scheduler.is_due next now); [|done].
  destruct conversation_id as [|? ?]; [done|].
  destruct user_prompt as [|? ?]; done.
Qed.

End StoreComposition.

(** ** The theorems at concrete inputs *)



Lemma due_task_missing_fields_is_skipped_witness :
  let parse := Examples.reads_as Examples.one_off_plain in
  let du := Examples.rejecting_dateutil in
  let t := Examples.task_without_conversation in
  let now := Time.at_utc 2024 1 1 9 0 0 in
  let v := Scheduler.evaluate_task parse du ∅ Examples.always_delivered now 0 t in
  Scheduler.classified_due v = true /\
  Scheduler.delivery_attempted v = false /\
  Scheduler.registry_after ∅ 0 t v = ∅.
Proof.
  intros parse du t now v.
  assert (Hdue : Scheduler.classified_due v = true) by (vm_compute; reflexivity).
  split; [exact Hdue|].
  pose proof (due_task_missing_fields_is_skipped parse du ∅
                Examples.always_delivered now 0%nat t (or_introl eq_refl))
    as [Hskip _].
  destruct (Hskip Hdue) as (_ & Hno & Hreg & _). split; assumption.
Defined.

Lemma create_checks_fragment_before_storing_witness :
  let f := Store.TaskList [Examples.plain_task "id-1"] in
  TaskTools.fails_leaving_store
    (TaskTools.create_scheduled_task "id-2" Store.Written "conv-1" "say hello"
       (TaskTools.PyStr "tomorrow at nine") f) f /\
  (TaskTools.create_scheduled_task "id-2" Store.Written "conv-1" "say hello"
     (TaskTools.PyStr Examples.plain_vevent) f).2
  = Store.TaskList [Examples.plain_task "id-1"; Examples.plain_task "id-2"].
Proof.
  intros f.
  pose proof (create_checks_fragment_before_storing "id-2" Store.Written
                "conv-1" "say hello" (TaskTools.PyStr "tomorrow at nine") f)
    as (_ & Hbad & _).
  pose proof (create_checks_fragment_before_storing "id-2" Store.Written
                "conv-1" "say hello" (TaskTools.PyStr Examples.plain_vevent) f)
    as (_ & _ & Hgood).
  split.
  - destruct (Hbad eq_refl) as (Herr & Hsame & _). split; assumption.
  - destruct Hgood as (s & Hs & _ & Hwritten & _);
      [discriminate|discriminate|reflexivity|].
    injection Hs as <-. rewrite (Hwritten eq_refl). reflexivity.
Defined.

Lemma unreadable_store_reads_as_empty_witness :
  TaskTools.list_scheduled_tasks None Examples.broken_store
  = (TaskTools.Listed [], Examples.broken_store) /\
  TaskTools.fails_leaving_store
    (TaskTools.delete_scheduled_task Store.Written "id-1" Examples.broken_store)
    Examples.broken_store.
Proof.
  pose proof (unreadable_store_reads_as_empty Examples.broken_store I)
    as (Hlist & Hdelete & _).
  split; [apply Hlist|apply Hdelete].
Defined.

Lemma delete_removes_every_match_witness :
  (TaskTools.delete_scheduled_task Store.Written "id-1"
     Examples.store_with_duplicate).2
  = Store.TaskList [Examples.plain_task "id-2"] /\
  TaskTools.fails_leaving_store
    (TaskTools.delete_scheduled_task Store.Written "id-3"
       Examples.store_with_duplicate)
    Examples.store_with_duplicate.
Proof.
  pose proof (delete_removes_every_match Store.Written "id-1"
                Examples.store_with_duplicate) as (Hdel & _ & _).
  pose proof (delete_removes_every_match Store.Written "id-3"
                Examples.store_with_duplicate) as (_ & _ & Hmiss).
  split.
  - destruct Hdel as (_ & Hwritten & _); [discriminate| |].
    + exists (Examples.plain_task "id-1"). split; [left|reflexivity].
    + rewrite (Hwritten eq_refl). reflexivity.
  - apply Hmiss. right. intros t Hin.
    repeat (apply elem_of_cons in Hin as [->|Hin]; [discriminate|]).
    by apply elem_of_nil in Hin.
Defined.

Lemma resolver_reads_neither_rdate_nor_exdate_witness :
  let parse := fun s : string =>
                 if bool_decide (s = "with rdate")
                 then Some Examples.one_off_with_rdate
                 else Some Examples.one_off_plain in
  Scheduler.calculate_next_occurrence parse Examples.rejecting_dateutil "t"
    "with rdate" (Time.at_utc 2024 1 1 9 0 0)
  = Scheduler.calculate_next_occurrence parse Examples.rejecting_dateutil "t"
      "plain" (Time.at_utc 2024 1 1 9 0 0).
Proof.
  intros parse.
  apply (resolver_reads_neither_rdate_nor_exdate parse
           Examples.rejecting_dateutil "t" "with rdate" "plain"
           Examples.one_off_with_rdate Examples.one_off_plain
           (Time.at_utc 2024 1 1 9 0 0) eq_refl eq_refl eq_refl eq_refl).
Defined.

Lemma recurring_schedule_resolves_to_none_witness :
  Scheduler.calculate_next_occurrence
    (Examples.reads_as Examples.daily_from_2024_01_01)
    Examples.rejecting_dateutil "t" "v" (Time.at_utc 2024 1 3 9 0 0) = None.
Proof.
  apply (recurring_schedule_resolves_to_none
           (Examples.reads_as Examples.daily_from_2024_01_01)
           Examples.rejecting_dateutil "t" "v" Examples.daily_from_2024_01_01
           Examples.daily (Time.at_utc 2024 1 3 9 0 0) eq_refl eq_refl).
  discriminate.
Defined.

Lemma cycle_without_tasks_is_idle_witness :
  Scheduler.process_scheduled_tasks (Examples.reads_as Examples.one_off_plain)
    Examples.rejecting_dateutil Examples.broken_store Examples.always_delivered
    0 {[ "id-1" ]}
  = ({[ "id-1" ]}, []).
Proof.
  apply (cycle_without_tasks_is_idle (Examples.reads_as Examples.one_off_plain)
           Examples.rejecting_dateutil Examples.broken_store).
  right. right. left. exact I.
Defined.

Lemma registry_holds_only_delivered_one_offs_witness :
  let parse := Examples.reads_as Examples.one_off_plain in
  let du := Examples.rejecting_dateutil in
  "id-1" ∈ (Scheduler.main parse du Examples.two_ticks).1 /\
  exists e, e ∈ concat (Scheduler.main parse du Examples.two_ticks).2 /\
            Scheduler.entry_id e = "id-1" /\
            Scheduler.delivered (Scheduler.e_verdict e) = true.
Proof.
  intros parse du.
  assert (Hin : "id-1" ∈ (Scheduler.main parse du Examples.two_ticks).1).
  { assert (Heq : (Scheduler.main parse du Examples.two_ticks).1
                  = {[ "id-1" ]} ∪ ∅) by reflexivity.
    rewrite Heq. set_solver. }
  split; [exact Hin|].
  destruct (registry_holds_only_delivered_one_offs parse du Examples.two_ticks
              "id-1" Hin) as (e & He & Hid & _ & Hdel).
  exists e. split; [exact He|]. split; [exact Hid|exact Hdel].
Defined.

Lemma one_off_delivered_at_most_once_witness :
  let parse := Examples.reads_as Examples.one_off_plain in
  let du := Examples.rejecting_dateutil in
  let entries := concat (Scheduler.main parse du Examples.two_ticks).2 in
  exists e1 e2,
    entries !! 0%nat = Some e1 /\ entries !! 1%nat = Some e2 /\
    Scheduler.delivered (Scheduler.e_verdict e1) = true /\
    Scheduler.e_verdict e2 = Scheduler.AlreadyFired.
Proof.
  intros parse du entries.
  set (t := Examples.plain_task "id-1").
  set (e1 := Scheduler.mkEntry 0 t
               (Scheduler.DueInjected (Time.at_utc 2024 1 1 9 0 0) true)).
  set (e2 := Scheduler.mkEntry 0 t Scheduler.AlreadyFired).
  assert (H1 : entries !! 0%nat = Some e1) by (vm_compute; reflexivity).
  assert (H2 : entries !! 1%nat = Some e2) by (vm_compute; reflexivity).
  exists e1, e2. split; [exact H1|]. split; [exact H2|].
  split; [reflexivity|].
  pose proof (one_off_delivered_at_most_once parse du Examples.two_ticks)
    as [Honce _].
  apply (Honce 0%nat 1%nat e1 e2); try reflexivity; try assumption. lia.
Defined.

Lemma recurring_task_ignores_registry_witness :
  let parse := Examples.reads_as Examples.daily_from_2024_01_01 in
  let du := Examples.rejecting_dateutil in
  Scheduler.is_one_off Examples.daily_task = false /\
  Scheduler.evaluate_task parse du {[ "id-d" ]} Examples.always_delivered
    (Time.at_utc 2024 1 3 9 0 0) 0 Examples.daily_task
  <> Scheduler.AlreadyFired.
Proof.
  intros parse du.
  assert (Hrec : Scheduler.is_one_off Examples.daily_task = false)
    by (vm_compute; reflexivity).
  split; [exact Hrec|].
  apply (recurring_task_ignores_registry parse du {[ "id-d" ]}
           Examples.always_delivered (Time.at_utc 2024 1 3 9 0 0) 0%nat
           Examples.daily_task Hrec).
Defined.

Lemma delivery_call_conditions_witness :
  let parse := Examples.reads_as Examples.one_off_plain in
  let du := Examples.rejecting_dateutil in
  let t := Examples.plain_task "id-1" in
  let now := Time.at_utc 2024 1 1 9 0 0 in
  Scheduler.evaluate_task parse du ∅ Examples.always_delivered now 0 t
  = Scheduler.DueInjected now true /\
  exists conv, Store.conversation_id t = Some conv /\ conv <> EmptyString.
Proof.
  intros parse du t now.
  assert (Hv : Scheduler.evaluate_task parse du ∅ Examples.always_delivered now 0 t
               = Scheduler.DueInjected now true) by (vm_compute; reflexivity).
  split; [exact Hv|].
  destruct (delivery_call_conditions parse du ∅ Examples.always_delivered now
              0%nat t now true Hv)
    as (vevent & conv & prompt & _ & _ & Hc & Hcne & _).
  exists conv. split; [exact Hc|exact Hcne].
Defined.

Lemma one_off_task_fires_within_window_witness :
  let parse := Examples.reads_as Examples.one_off_plain in
  let t := Examples.plain_task "id-1" in
  Scheduler.delivery_attempted
    (Scheduler.evaluate_task parse Examples.rejecting_dateutil ∅
       Examples.always_delivered (Time.at_utc 2024 1 1 9 4 0) 0 t) = true.
Proof.
  intros parse t.
  apply (one_off_task_fires_within_window parse Examples.rejecting_dateutil ∅
           Examples.always_delivered (Time.at_utc 2024 1 1 9 4 0) 0%nat t
           Examples.plain_vevent Examples.one_off_plain
           (Time.utc (Time.at_utc 2024 1 1 9 0 0))
           eq_refl eq_refl eq_refl).
  - vm_compute. reflexivity.
  - reflexivity.
  - discriminate.
  - reflexivity.
  - reflexivity.
  - exists (Time.at_utc 2024 1 1 9 0 0). split; [reflexivity|].
    vm_compute. repeat split; discriminate.
Defined.

Lemma recurring_task_is_never_delivered_witness :
  let parse := Examples.reads_as Examples.daily_from_2024_01_01 in
  Scheduler.delivery_attempted
    (Scheduler.evaluate_task parse Examples.rejecting_dateutil ∅
       Examples.always_delivered (Time.at_utc 2024 1 3 9 0 0) 0
       Examples.daily_task) = false.
Proof.
  intros parse.
  apply (recurring_task_is_never_delivered parse Examples.rejecting_dateutil ∅
           Examples.always_delivered (Time.at_utc 2024 1 3 9 0 0) 0%nat
           Examples.daily_task Examples.daily_vevent
           Examples.daily_from_2024_01_01 Examples.daily eq_refl eq_refl).
  - discriminate.
  - reflexivity.
Defined.

Lemma text_mentioning_recurrence_is_not_one_off_witness :
  Scheduler.is_one_off Examples.summary_task = false.
Proof.
  apply (text_mentioning_recurrence_is_not_one_off Examples.summary_task
           Examples.summary_vevent "rrule" eq_refl).
  - exists ("BEGIN:VEVENT" +:+ Examples.LF +:+ "DTSTART:20240101T090000Z"
            +:+ Examples.LF +:+ "SUMMARY:"),
           (" notes" +:+ Examples.LF +:+ "END:VEVENT").
    reflexivity.
  - left. reflexivity.
Defined.

Lemma task_for_inactive_session_stays_pending_witness :
  let parse := Examples.reads_as Examples.one_off_plain in
  let du := Examples.rejecting_dateutil in
  let t := Store.mkTask (Some "id-8") (Some "conv-2") (Some "say hello")
                        (Some Examples.plain_vevent) (Some "pending") in
  let now := Time.at_utc 2024 1 1 9 0 0 in
  Examples.one_session !! "conv-2" = None /\
  Scheduler.evaluate_task parse du ∅
    (Delivery.delivery_over
       (MainApp.post_to_app (list string) Examples.list_send
                            Examples.one_session)) now 0 t
  = Scheduler.DueInjected now false.
Proof.
  intros parse du t now.
  assert (Hnone : Examples.one_session !! "conv-2" = None)
    by (vm_compute; reflexivity).
  split; [exact Hnone|].
  apply (task_for_inactive_session_stays_pending (list string)
           Examples.list_send parse du Examples.one_session ∅ now 0%nat t
           Examples.plain_vevent "conv-2" "say hello" now).
  - vm_compute. reflexivity.
  - reflexivity.
  - discriminate.
  - reflexivity.
  - discriminate.
  - reflexivity.
  - discriminate.
  - vm_compute. reflexivity.
  - vm_compute. discriminate.
  - exact Hnone.
Defined.

Lemma create_then_list_witness :
  let f := Store.TaskList [Examples.plain_task "id-1"] in
  (TaskTools.list_scheduled_tasks None
     (TaskTools.create_scheduled_task "id-2" Store.Written "conv-1" "say hello"
        (TaskTools.PyStr Examples.plain_vevent) f).2).1
  = TaskTools.Listed [Examples.plain_task "id-1"; Examples.plain_task "id-2"].
Proof.
  intros f.
  apply (create_then_list "id-2" "conv-1" "say hello" Examples.plain_vevent f).
  - discriminate.
  - discriminate.
  - reflexivity.
Defined.

Lemma create_then_delete_witness :
  let f := Store.TaskList [Examples.plain_task "id-1"] in
  TaskTools.delete_scheduled_task Store.Written "id-2"
    (TaskTools.create_scheduled_task "id-2" Store.Written "conv-1" "say hello"
       (TaskTools.PyStr Examples.plain_vevent) f).2
  = (TaskTools.Deleted, f).
Proof.
  intros f.
  apply (create_then_delete "id-2" "conv-1" "say hello" Examples.plain_vevent f).
  - discriminate.
  - discriminate.
  - reflexivity.
  - discriminate.
  - intros t Ht. apply list_elem_of_singleton in Ht as ->. discriminate.
Defined.

Lemma created_task_is_complete_witness :
  let parse := Examples.reads_as Examples.one_off_plain in
  let du := Examples.rejecting_dateutil in
  let out := TaskTools.create_scheduled_task "id-2" Store.Written "conv-1"
               "say hello" (TaskTools.PyStr Examples.plain_vevent) Store.Absent in
  TaskTools.is_error out.1 = false /\
  exists new_task,
    out.1 = TaskTools.Created "id-2" new_task /\
    Scheduler.evaluate_task parse du ∅ Examples.always_delivered 0 0 new_task
    <> Scheduler.NoVevent.
Proof.
  intros parse du out.
  assert (Hok : TaskTools.is_error out.1 = false) by reflexivity.
  split; [exact Hok|].
  destruct (created_task_is_complete parse du "id-2" Store.Written "conv-1"
              "say hello" (TaskTools.PyStr Examples.plain_vevent) Store.Absent
              ∅ Examples.always_delivered 0 0%nat Hok)
    as (new_task & Hcreated & _ & Hvev & _).
  exists new_task. split; [exact Hcreated|exact Hvev].
Defined.
